(** * vibeform: the Express backend (/api/playlist and /api/experience)

    A shallow embedding of the two route handlers of the server and of
    [getSpotifyToken], together with the fragment of the JavaScript runtime
    they rely on (values, truthiness, property reads, [ToString],
    [JSON.parse], the relational comparison of [length > 0]).

    Conventions.
    - A JavaScript string is the list of its UTF-16 code units ([list N]);
      [str "..."] turns an ASCII literal into such a list.
    - A Number is an IEEE-754 binary64 value, kept as sign, integer mantissa
      and binary exponent; every rounding is computed exactly over [Z].
    - An object is a finite map from property names to values; the key order
      of an object is not observed by the handlers.
    - The outside world (the token endpoint, the catalog search endpoint and
      the completion endpoint) answers every outbound call; the handlers are
      written in a monad that threads the list of calls issued so far and
      propagates thrown errors.
    - The values the handlers convert are data (a parsed query string,
      parsed JSON): none of their properties is callable.  A conversion to
      a string or to a number that throws a TypeError is [None]. *)

From Stdlib Require Import ZArith Lia Ascii String.
From stdpp Require Import gmap list.

#[local] Set Warnings "-register-all".
#[local] Open Scope Z_scope.

(** ** Strings *)

Module JS.

Abbreviation jsstring := (list N).

Definition str (s : string) : jsstring :=
  map N_of_ascii (list_ascii_of_string s).

(** Decimal digits of a non-negative integer, most significant first. *)
Fixpoint digits_go (fuel : nat) (z : Z) (acc : jsstring) : jsstring :=
  match fuel with
  | O => acc
  | S fuel' =>
      let acc' := Z.to_N (48 + z mod 10) :: acc in
      if z <? 10 then acc' else digits_go fuel' (z / 10) acc'
  end.

Definition digits (z : Z) : jsstring :=
  digits_go (S (Z.to_nat (Z.log2 z))) z [].

(** [s.includes(t)] *)
Fixpoint is_prefix (t s : jsstring) : bool :=
  match t, s with
  | [], _ => true
  | _ :: _, [] => false
  | a :: t', b :: s' => (a =? b)%N && is_prefix t' s'
  end.

Fixpoint includes (s t : jsstring) : bool :=
  is_prefix t s ||
  match s with
  | [] => false
  | _ :: s' => includes s' t
  end.

(** WhiteSpace and LineTerminator code units: the class [\s] of regular
    expressions, also what [trim] and the numeric-string grammar strip. *)
Definition is_space (c : N) : bool :=
  ((9 <=? c) && (c <=? 13) || (c =? 32) || (c =? 160) || (c =? 5760)
   || (8192 <=? c) && (c <=? 8202) || (c =? 8232) || (c =? 8233)
   || (c =? 8239) || (c =? 8287) || (c =? 12288) || (c =? 65279))%N.

Fixpoint trim_start (s : jsstring) : jsstring :=
  match s with
  | c :: s' => if is_space c then trim_start s' else s
  | [] => []
  end.

Definition trim (s : jsstring) : jsstring :=
  rev (trim_start (rev (trim_start s))).

(** ** Numbers *)

(** [NFinite neg m e] is (-1)^neg * m * 2^e.  Zero has mantissa 0; a normal
    number has 2^52 <= m < 2^53 and -1074 <= e <= 971; a subnormal number
    has 0 < m < 2^52 and e = -1074. *)
Inductive Number :=
| NFinite (neg : bool) (mant : Z) (exp : Z)
| NInfinity (neg : bool).

Definition round_half_even (a b : Z) : Z :=
  let q := a / b in
  let r := a mod b in
  if 2 * r <? b then q
  else if b <? 2 * r then q + 1
  else if Z.even q then q else q + 1.

(** The binary64 value nearest to the rational p/q (p >= 0, q > 0), ties to
    even: the Number value of a mathematical value. *)
Definition to_double (neg : bool) (p q : Z) : Number :=
  if p =? 0 then NFinite neg 0 0
  else
    let scaled e := if 0 <=? e then (p, q * 2 ^ e) else (p * 2 ^ (- e), q) in
    let e0 := Z.log2 p - Z.log2 q - 52 in
    let e1 := let '(a, b) := scaled e0 in if 2 ^ 52 <=? a / b then e0 else e0 - 1 in
    let e2 := Z.max e1 (-1074) in
    let '(a, b) := scaled e2 in
    let m := round_half_even a b in
    let '(m', e') := if m =? 2 ^ 53 then (2 ^ 52, e2 + 1) else (m, e2) in
    if m' =? 0 then NFinite neg 0 0
    else if 971 <? e' then NInfinity neg
    else NFinite neg m' e'.

(** The Number value of the decimal m * 10^e. *)
Definition of_decimal (neg : bool) (m e : Z) : Number :=
  if 0 <=? e then to_double neg (m * 10 ^ e) 1 else to_double neg m (10 ^ (- e)).

Definition of_nat (n : nat) : Number := to_double false (Z.of_nat n) 1.

Definition is_zero (x : Number) : bool :=
  match x with
  | NFinite _ m _ => m =? 0
  | NInfinity _ => false
  end.

Definition is_positive (x : Number) : bool :=
  match x with
  | NFinite neg m _ => negb neg && (0 <? m)
  | NInfinity neg => negb neg
  end.

(** *** Number::toString (radix 10) *)

(** x * 10^k for the positive rational x = a/b. *)
Definition scale10 (x : Z * Z) (k : Z) : Z * Z :=
  let '(a, b) := x in
  if 0 <=? k then (a * 10 ^ k, b) else (a, b * 10 ^ (- k)).

(** The n with 10^(n-1) <= a/b < 10^n. *)
Definition decimal_exponent (x : Z * Z) : Z :=
  let '(a, b) := x in
  let est := ((Z.log2 a - Z.log2 b) * 30103) / 100000 in
  let ge1 k := let '(c, d) := scale10 x (- k) in d <=? c in
  let fix adjust (fuel : nat) (k : Z) : Z :=
    match fuel with
    | O => k
    | S fuel' =>
        if negb (ge1 k) then adjust fuel' (k - 1)
        else if ge1 (k + 1) then adjust fuel' (k + 1)
        else k
    end in
  adjust 8%nat est + 1.

(** The shortest digit string s (as an integer of k digits) and the exponent n
    such that s * 10^(n-k) rounds to the given positive finite number; among
    the candidates of that length, the one nearest to it. *)
Definition shortest_digits (m e : Z) : Z * Z * Z :=
  let x := if 0 <=? e then (m * 2 ^ e, 1) else (m, 2 ^ (- e)) in
  let n0 := decimal_exponent x in
  let same s k :=
    match of_decimal false s (n0 - k) with
    | NFinite _ m' e' => (m' =? m) && (e' =? e)
    | NInfinity _ => false
    end in
  let fix search (todo : nat) (k : Z) : Z * Z * Z :=
    match todo with
    | O => (m, 1, n0)
    | S todo' =>
        let '(c, d) := scale10 x (k - n0) in
        let lo := c / d in
        let hi := lo + 1 in
        let pick :=
          match same lo k, same hi k with
          | true, true =>
              (* distance to lo is (c mod d)/d, to hi is 1 - that *)
              let r := 2 * (c mod d) in
              if r <? d then Some lo
              else if d <? r then Some hi
              else if Z.even lo then Some lo else Some hi
          | true, false => Some lo
          | false, true => Some hi
          | false, false => None
          end in
        match pick with
        | Some s => if s =? 10 ^ k then (10 ^ (k - 1), k, n0 + 1) else (s, k, n0)
        | None => search todo' (k + 1)
        end
    end in
  search 17%nat 1.

Definition zeros (n : Z) : jsstring := repeat 48%N (Z.to_nat n).

Definition Number_toString (x : Number) : jsstring :=
  match x with
  | NInfinity neg => (if neg then str "-" else []) ++ str "Infinity"
  | NFinite neg m e =>
      if m =? 0 then str "0"
      else
        let '(s, k, n) := shortest_digits m e in
        let ds := digits s in
        let sign := if neg then str "-" else [] in
        sign ++
        (if (k <=? n) && (n <=? 21) then ds ++ zeros (n - k)
         else if (0 <? n) && (n <=? 21) then
           take (Z.to_nat n) ds ++ str "." ++ drop (Z.to_nat n) ds
         else if (-6 <? n) && (n <=? 0) then
           str "0." ++ zeros (- n) ++ ds
         else
           let ex := (if 0 <=? n - 1 then str "+" else str "-") ++ digits (Z.abs (n - 1)) in
           if k =? 1 then ds ++ str "e" ++ ex
           else take 1 ds ++ str "." ++ drop 1 ds ++ str "e" ++ ex)
  end.

(** *** StringToNumber *)

Definition is_digit (c : N) : bool := ((48 <=? c) && (c <=? 57))%N.

Fixpoint span (p : N -> bool) (s : jsstring) : jsstring * jsstring :=
  match s with
  | c :: s' => if p c then let '(a, r) := span p s' in (c :: a, r) else ([], s)
  | [] => ([], [])
  end.

Definition digit_value (c : N) : Z :=
  if is_digit c then Z.of_N c - 48
  else if ((97 <=? c) && (c <=? 102))%N then Z.of_N c - 87
  else Z.of_N c - 55.

Definition radix_value (radix : Z) (ds : jsstring) : Z :=
  fold_left (fun acc c => acc * radix + digit_value c) ds 0.

(** ExponentPart, which must end the literal; an absent part is 10^0. *)
Definition exponent_part (s : jsstring) : option Z :=
  match s with
  | [] => Some 0
  | c :: s1 =>
      if ((c =? 101) || (c =? 69))%N then
        let '(neg, s2) :=
          match s1 with
          | d :: t => if (d =? 43)%N then (false, t)
                      else if (d =? 45)%N then (true, t) else (false, s1)
          | [] => (false, s1)
          end in
        let '(ds, rest) := span is_digit s2 in
        match ds, rest with
        | _ :: _, [] => Some (if neg then - radix_value 10 ds else radix_value 10 ds)
        | _, _ => None
        end
      else None
  end.

(** StrUnsignedDecimalLiteral; [None] is NaN. *)
Definition unsigned_decimal (neg : bool) (s : jsstring) : option Number :=
  if bool_decide (s = str "Infinity") then Some (NInfinity neg)
  else
    let '(ip, r1) := span is_digit s in
    let '(fp, r2) :=
      match r1 with
      | c :: t => if (c =? 46)%N then span is_digit t else ([], r1)
      | [] => ([], r1)
      end in
    match ip ++ fp with
    | [] => None
    | _ :: _ =>
        match exponent_part r2 with
        | Some ex => Some (of_decimal neg (radix_value 10 (ip ++ fp)) (ex - Z.of_nat (length fp)))
        | None => None
        end
    end.

Definition is_hex_digit (c : N) : bool :=
  (is_digit c || (97 <=? c) && (c <=? 102) || (65 <=? c) && (c <=? 70))%N.
Definition is_octal_digit (c : N) : bool := ((48 <=? c) && (c <=? 55))%N.
Definition is_binary_digit (c : N) : bool := ((c =? 48) || (c =? 49))%N.

Definition non_decimal (radix : Z) (p : N -> bool) (ds : jsstring) : option Number :=
  match ds with
  | [] => None
  | _ :: _ => if forallb p ds then Some (to_double false (radix_value radix ds) 1) else None
  end.

Definition StringToNumber (s : jsstring) : option Number :=
  match trim s with
  | [] => Some (NFinite false 0 0)
  | c :: r =>
      if (c =? 43)%N then unsigned_decimal false r
      else if (c =? 45)%N then unsigned_decimal true r
      else
        match r with
        | x :: ds =>
            if (c =? 48)%N && ((x =? 120) || (x =? 88))%N then non_decimal 16 is_hex_digit ds
            else if (c =? 48)%N && ((x =? 111) || (x =? 79))%N then non_decimal 8 is_octal_digit ds
            else if (c =? 48)%N && ((x =? 98) || (x =? 66))%N then non_decimal 2 is_binary_digit ds
            else unsigned_decimal false (c :: r)
        | [] => unsigned_decimal false (c :: r)
        end
  end.

(** ** Values *)

Inductive JSValue :=
| JUndefined
| JNull
| JBool (b : bool)
| JNum (x : Number)
| JStr (s : jsstring)
| JArr (l : list JSValue)
| JObj (m : gmap jsstring JSValue).

#[global] Instance JSValue_inhabited : Inhabited JSValue := populate JUndefined.

(** ToBoolean *)
Definition truthy (v : JSValue) : bool :=
  match v with
  | JUndefined | JNull => false
  | JBool b => b
  | JNum x => negb (is_zero x)
  | JStr s => negb (bool_decide (s = []))
  | JArr _ | JObj _ => true
  end.

Definition is_nullish (v : JSValue) : bool :=
  match v with
  | JUndefined | JNull => true
  | _ => false
  end.

(** [typeof v === 'string'] *)
Definition is_string (v : JSValue) : bool :=
  match v with
  | JStr _ => true
  | _ => false
  end.

(** [v === s] for a string literal s. *)
Definition is_the_string (v : JSValue) (s : jsstring) : bool :=
  match v with
  | JStr t => bool_decide (t = s)
  | _ => false
  end.

(** [Array.isArray(v)] *)
Definition isArray (v : JSValue) : bool :=
  match v with
  | JArr _ => true
  | _ => false
  end.

(** [l.join(sep)] over a rendering [f] of the elements. *)
Definition join_with {A} (f : A -> jsstring) (sep : jsstring) : list A -> jsstring :=
  fix go (l : list A) : jsstring :=
    match l with
    | [] => []
    | x :: l' =>
        f x ++ match l' with
               | [] => []
               | _ :: _ => sep ++ go l'
               end
    end.

(** [l.join(sep)] over a rendering [f] of the elements that may throw
    ([None]); the elements are rendered in order. *)
Definition try_join_with {A} (f : A -> option jsstring) (sep : jsstring)
  : list A -> option jsstring :=
  fix go (l : list A) : option jsstring :=
    match l with
    | [] => Some []
    | x :: l' =>
        match f x, go l' with
        | Some s, Some r => Some (s ++ match l' with
                                       | [] => []
                                       | _ :: _ => sep ++ r
                                       end)
        | _, _ => None
        end
    end.

(** ToString; [None] is a TypeError.  The values are data (parsed JSON, a
    parsed query string): no property of theirs is callable.  A plain object
    renders as [[object Object]] through the inherited toString, unless it
    has a toString property of its own: that one is not callable, the
    inherited valueOf returns the object and an own valueOf is not callable
    either, so the conversion throws.  An array renders as its elements
    joined by a comma, null and undefined elements as the empty string, and
    throws when an element does. *)
Fixpoint ToString (v : JSValue) : option jsstring :=
  match v with
  | JUndefined => Some (str "undefined")
  | JNull => Some (str "null")
  | JBool b => Some (if b then str "true" else str "false")
  | JNum x => Some (Number_toString x)
  | JStr s => Some s
  | JArr l =>
      try_join_with (fun x => match x with
                              | JUndefined | JNull => Some []
                              | _ => ToString x
                              end) (str ",") l
  | JObj m =>
      match m !! str "toString" with
      | Some _ => None
      | None => Some (str "[object Object]")
      end
  end.

(** [l.join(sep)]; [None] is the TypeError of an element without string
    form. *)
Definition join (l : list JSValue) (sep : jsstring) : option jsstring :=
  try_join_with (fun x => if is_nullish x then Some [] else ToString x) sep l.

(** ToNumber; [Some None] is NaN, [None] a TypeError: an object or an array
    is converted to a primitive first, which for data is its string form. *)
Definition ToNumber (v : JSValue) : option (option Number) :=
  match v with
  | JUndefined => Some None
  | JNull => Some (Some (NFinite false 0 0))
  | JBool b => Some (Some (if b then of_nat 1 else NFinite false 0 0))
  | JNum x => Some (Some x)
  | JStr s => Some (StringToNumber s)
  | JArr _ | JObj _ =>
      match ToString v with
      | Some text => Some (StringToNumber text)
      | None => None
      end
  end.

(** [v > 0]; [None] is the TypeError of the conversion. *)
Definition gt_zero (v : JSValue) : option bool :=
  match ToNumber v with
  | Some (Some x) => Some (is_positive x)
  | Some None => Some false
  | None => None
  end.

(** The array index a property name denotes, if it is a canonical one. *)
Definition index_of_key (k : jsstring) : option nat :=
  match k with
  | [] => None
  | c :: r =>
      if forallb is_digit k && ((negb (c =? 48)%N) || bool_decide (r = []))
      then Some (Z.to_nat (radix_value 10 k))
      else None
  end.

(** [v[k]] for a value that is neither null nor undefined: own properties
    (the elements and the length of an array or a string, the members of an
    object).  None of the names the handlers read is an inherited one. *)
Definition get (v : JSValue) (k : jsstring) : JSValue :=
  match v with
  | JObj m => default JUndefined (m !! k)
  | JArr l =>
      if bool_decide (k = str "length") then JNum (of_nat (length l))
      else match index_of_key k with
           | Some i => default JUndefined (l !! i)
           | None => JUndefined
           end
  | JStr s =>
      if bool_decide (k = str "length") then JNum (of_nat (length s))
      else match index_of_key k with
           | Some i => match s !! i with
                       | Some c => JStr [c]
                       | None => JUndefined
                       end
           | None => JUndefined
           end
  | _ => JUndefined
  end.

(** [v?.[k]] *)
Definition oget (v : JSValue) (k : jsstring) : JSValue :=
  if is_nullish v then JUndefined else get v k.

(** The own enumerable properties [{...v}] copies. *)
Definition indexed {A} (f : A -> JSValue) (l : list A) : gmap jsstring JSValue :=
  list_to_map (imap (fun i x => (digits (Z.of_nat i), f x)) l).

Definition spread (v : JSValue) : gmap jsstring JSValue :=
  match v with
  | JObj m => m
  | JArr l => indexed id l
  | JStr s => indexed (fun c => JStr [c]) s
  | _ => ∅
  end.

(** [v.length > 0] for a value that is neither null nor undefined; [None]
    is the TypeError of a length that has no primitive form. *)
Definition has_positive_length (v : JSValue) : option bool :=
  match v with
  | JArr l => Some (negb (bool_decide (l = [])))
  | JStr s => Some (negb (bool_decide (s = [])))
  | _ => gt_zero (get v (str "length"))
  end.

(** ** JSON.parse *)

Module JSON.

(** JSON white space: tab, line feed, carriage return, space. *)
Definition is_ws (c : N) : bool :=
  ((c =? 9) || (c =? 10) || (c =? 13) || (c =? 32))%N.

Fixpoint skip_ws (s : jsstring) : jsstring :=
  match s with
  | c :: s' => if is_ws c then skip_ws s' else s
  | [] => []
  end.

Definition hex4 (a b c d : N) : option N :=
  if forallb is_hex_digit [a; b; c; d]
  then Some (Z.to_N (radix_value 16 [a; b; c; d]))
  else None.

(** The characters of a string after its opening quote, up to the closing
    one; the result is the string and what follows the closing quote. *)
Fixpoint string_body (s : jsstring) : option (jsstring * jsstring) :=
  match s with
  | [] => None
  | c :: s1 =>
      if (c =? 34)%N then Some ([], s1)
      else if (c <? 32)%N then None
      else if (c =? 92)%N then
        match s1 with
        | e :: s2 =>
            let simple (u : N) :=
              match string_body s2 with
              | Some (t, r) => Some (u :: t, r)
              | None => None
              end in
            if (e =? 34)%N then simple 34%N
            else if (e =? 92)%N then simple 92%N
            else if (e =? 47)%N then simple 47%N
            else if (e =? 98)%N then simple 8%N
            else if (e =? 102)%N then simple 12%N
            else if (e =? 110)%N then simple 10%N
            else if (e =? 114)%N then simple 13%N
            else if (e =? 116)%N then simple 9%N
            else if (e =? 117)%N then
              match s2 with
              | h1 :: h2 :: h3 :: h4 :: s3 =>
                  match hex4 h1 h2 h3 h4, string_body s3 with
                  | Some u, Some (t, r) => Some (u :: t, r)
                  | _, _ => None
                  end
              | _ => None
              end
            else None
        | [] => None
        end
      else
        match string_body s1 with
        | Some (t, r) => Some (c :: t, r)
        | None => None
        end
  end.

(** A number: an optional minus sign; 0, or a non-zero digit and further
    digits; an optional fraction (a point and at least one digit); an
    optional exponent (e or E, an optional sign, at least one digit). *)
Definition number (s : jsstring) : option (Number * jsstring) :=
  let '(neg, s0) :=
    match s with
    | c :: t => if (c =? 45)%N then (true, t) else (false, s)
    | [] => (false, s)
    end in
  let '(ip, r1) :=
    match s0 with
    | c :: t => if (c =? 48)%N then ([c], t) else span is_digit s0
    | [] => ([], s0)
    end in
  match ip with
  | [] => None
  | _ :: _ =>
      let frac :=
        match r1 with
        | c :: t =>
            if (c =? 46)%N then
              match span is_digit t with
              | ([], _) => None
              | (fp, r) => Some (fp, r)
              end
            else Some ([], r1)
        | [] => Some ([], r1)
        end in
      match frac with
      | None => None
      | Some (fp, r2) =>
          let expo :=
            match r2 with
            | c :: t =>
                if ((c =? 101) || (c =? 69))%N then
                  let '(eneg, t') :=
                    match t with
                    | d :: u => if (d =? 43)%N then (false, u)
                                else if (d =? 45)%N then (true, u) else (false, t)
                    | [] => (false, t)
                    end in
                  match span is_digit t' with
                  | ([], _) => None
                  | (ds, r) => Some (if eneg then - radix_value 10 ds else radix_value 10 ds, r)
                  end
                else Some (0, r2)
            | [] => Some (0, r2)
            end in
          match expo with
          | None => None
          | Some (ex, r3) =>
              Some (of_decimal neg (radix_value 10 (ip ++ fp)) (ex - Z.of_nat (length fp)), r3)
          end
      end
  end.

Definition literal (word : jsstring) (v : JSValue) (s : jsstring)
  : option (JSValue * jsstring) :=
  if is_prefix word s then Some (v, drop (length word) s) else None.

(** One value, with leading white space; [elements] and [members] read the
    rest of an array and of an object after their first bracket.  A member
    whose name was already read replaces the earlier one. *)
Fixpoint value (fuel : nat) (s : jsstring) : option (JSValue * jsstring) :=
  match fuel with
  | O => None
  | S fuel' =>
      match skip_ws s with
      | [] => None
      | c :: r =>
          if (c =? 123)%N then
            match skip_ws r with
            | d :: r' => if (d =? 125)%N then Some (JObj ∅, r') else members fuel' r ∅
            | [] => None
            end
          else if (c =? 91)%N then
            match skip_ws r with
            | d :: r' => if (d =? 93)%N then Some (JArr [], r') else elements fuel' r []
            | [] => None
            end
          else if (c =? 34)%N then
            match string_body r with
            | Some (t, r') => Some (JStr t, r')
            | None => None
            end
          else if (c =? 116)%N then literal (str "true") (JBool true) (c :: r)
          else if (c =? 102)%N then literal (str "false") (JBool false) (c :: r)
          else if (c =? 110)%N then literal (str "null") JNull (c :: r)
          else
            match number (c :: r) with
            | Some (x, r') => Some (JNum x, r')
            | None => None
            end
      end
  end
with elements (fuel : nat) (s : jsstring) (acc : list JSValue)
  : option (JSValue * jsstring) :=
  match fuel with
  | O => None
  | S fuel' =>
      match value fuel' s with
      | Some (v, r) =>
          match skip_ws r with
          | c :: r' =>
              if (c =? 44)%N then elements fuel' r' (v :: acc)
              else if (c =? 93)%N then Some (JArr (rev (v :: acc)), r')
              else None
          | [] => None
          end
      | None => None
      end
  end
with members (fuel : nat) (s : jsstring) (acc : gmap jsstring JSValue)
  : option (JSValue * jsstring) :=
  match fuel with
  | O => None
  | S fuel' =>
      match skip_ws s with
      | q :: r =>
          if (q =? 34)%N then
            match string_body r with
            | Some (k, r1) =>
                match skip_ws r1 with
                | c :: r2 =>
                    if (c =? 58)%N then
                      match value fuel' r2 with
                      | Some (v, r3) =>
                          match skip_ws r3 with
                          | d :: r4 =>
                              if (d =? 44)%N then members fuel' r4 (<[k:=v]> acc)
                              else if (d =? 125)%N then Some (JObj (<[k:=v]> acc), r4)
                              else None
                          | [] => None
                          end
                      | None => None
                      end
                    else None
                | [] => None
                end
            | None => None
            end
          else None
      | [] => None
      end
  end.

(** [JSON.parse(text)]: one value and nothing but white space after it;
    [None] is the SyntaxError.  The fuel is enough for every text: more fuel
    gives the same result ([parse_fuel]). *)
Definition parse (text : jsstring) : option JSValue :=
  match value (2 * length text + 2) text with
  | Some (v, r) =>
      match skip_ws r with
      | [] => Some v
      | _ :: _ => None
      end
  | None => None
  end.

End JSON.

(** [JSON.parse(v)]: the argument is converted to a string first; [None] is
    the TypeError of the conversion or the SyntaxError of the text. *)
Definition parse_value (v : JSValue) : option JSValue :=
  match ToString v with
  | Some text => JSON.parse text
  | None => None
  end.

End JS.

(** * The server *)

Module Server.
Import JS.

(** ** Configuration, requests, responses *)

(** The environment variables the server reads: a variable that is set is a
    string, an unset one ([None]) reads as undefined. *)
Record Config := {
  SPOTIFY_CLIENT_ID : option jsstring;
  SPOTIFY_CLIENT_SECRET : option jsstring;
  GROQ_KEY : option jsstring
}.

(** The value read from a variable. *)
Definition env (x : option jsstring) : JSValue :=
  match x with
  | Some s => JStr s
  | None => JUndefined
  end.

(** A variable in a template literal. *)
Definition template (x : option jsstring) : jsstring :=
  match x with
  | Some s => s
  | None => str "undefined"
  end.

(** The startup validation: the process exits unless all three are set. *)
Definition starts (cfg : Config) : bool :=
  negb (negb (truthy (env (SPOTIFY_CLIENT_ID cfg)))
        || negb (truthy (env (SPOTIFY_CLIENT_SECRET cfg))))
  && negb (negb (truthy (env (GROQ_KEY cfg)))).

(** [req.query]: the parsed query string. *)
Record Request := { query : gmap jsstring JSValue }.

Definition param (req : Request) (name : string) : JSValue :=
  default JUndefined (query req !! str name).

(** [res.status(status).json(body)] *)
Record Response := { status : Z; body : JSValue }.

(** An object literal. *)
Definition prop (name : string) (v : JSValue) : jsstring * JSValue := (str name, v).

Definition obj (l : list (jsstring * JSValue)) : JSValue := JObj (list_to_map l).

Definition json_error (code : Z) (message : string) : Response :=
  {| status := code; body := obj [prop "error" (JStr (str message))] |}.

(** ** Outbound calls *)

(** The body and the options of the chat-completion request. *)
Record ChatRequest := {
  model : jsstring;
  system_content : jsstring;
  user_content : jsstring;
  temperature : Number;
  max_tokens : Z;
  chat_authorization : jsstring;
  chat_timeout : Z
}.

Inductive Call :=
| PostToken (credentials : jsstring) (timeout : Z)
    (* POST SPOTIFY_TOKEN_URL, grant_type=client_credentials; the Basic
       authorization is the base64 encoding of [credentials] *)
| GetSearch (q : jsstring) (limit : Z) (authorization : jsstring)
    (* GET SPOTIFY_API_URL/search, type=playlist *)
| PostChat (r : ChatRequest).
    (* POST https://api.groq.com/openai/v1/chat/completions *)

(** A thrown error: its message and [error.response?.status] (set on the
    rejection of a call the provider answered with a non-2xx status). *)
Record Error := { message : jsstring; response_status : option Z }.

Definition new_Error (msg : jsstring) : Error :=
  {| message := msg; response_status := None |}.

(** What awaiting an axios call gives: the response's [data], or a rejection. *)
Inductive AxiosResult :=
| Resolved (data : JSValue)
| Rejected (e : Error).

(** The providers: the answer to a call, given the calls issued before it
    during the request. *)
Definition World := list Call -> Call -> AxiosResult.

(** ** The handler monad *)

(** A statement completes normally, throws, or returns a response from the
    handler; the calls issued so far are threaded through. *)
Inductive Completion (A : Type) :=
| Normal (a : A)
| Throw (e : Error)
| Respond (r : Response).
Arguments Normal {A} a.
Arguments Throw {A} e.
Arguments Respond {A} r.

Definition M (A : Type) : Type := list Call -> Completion A * list Call.

Definition ret {A} (a : A) : M A := fun tr => (Normal a, tr).
Definition throw {A} (e : Error) : M A := fun tr => (Throw e, tr).
Definition respond {A} (r : Response) : M A := fun tr => (Respond r, tr).

Definition bind {A B} (m : M A) (k : A -> M B) : M B :=
  fun tr =>
    match m tr with
    | (Normal a, tr') => k a tr'
    | (Throw e, tr') => (Throw e, tr')
    | (Respond r, tr') => (Respond r, tr')
    end.

(** [try { m } catch (error) { handler }] *)
Definition try_catch {A} (m : M A) (handler : Error -> M A) : M A :=
  fun tr =>
    match m tr with
    | (Throw e, tr') => handler e tr'
    | other => other
    end.

Notation "x <- m ;; k" := (bind m (fun x => k))
  (at level 100, m at next level, right associativity).
Notation "m ;;; k" := (bind m (fun _ => k))
  (at level 100, right associativity).

(** [await axios...]: the call is recorded and the world answers it. *)
Definition axios (w : World) (c : Call) : M JSValue :=
  fun tr =>
    match w tr c with
    | Resolved data => (Normal data, tr ++ [c])
    | Rejected e => (Throw e, tr ++ [c])
    end.

(** The TypeError of a conversion to a string or a number that throws (V8's
    wording). *)
Definition cannot_convert : Error :=
  new_Error (str "Cannot convert object to primitive value").

(** An evaluation that yields a value or throws that TypeError. *)
Definition evaluate {A} (x : option A) : M A :=
  match x with
  | Some a => ret a
  | None => throw cannot_convert
  end.

(** The message of the TypeError of reading a property of null or undefined
    (V8's wording). *)
Definition cannot_read (v : JSValue) (k : string) : jsstring :=
  str "Cannot read properties of "
  ++ match v with
     | JNull => str "null"
     | _ => str "undefined"
     end
  ++ str " (reading '" ++ str k ++ str "')".

(** [v[k]] *)
Definition read (v : JSValue) (k : string) : M JSValue :=
  if is_nullish v
  then throw (new_Error (cannot_read v k))
  else ret (get v (str k)).

(** [JSON.parse(v)]: the argument is converted to a string, then read.  The
    message of the SyntaxError is never observed: both callers catch it and
    answer with a text of their own. *)
Definition JSON_parse (v : JSValue) : M JSValue :=
  text <- evaluate (ToString v) ;;
  match JSON.parse text with
  | Some x => ret x
  | None => throw (new_Error (str "Unexpected token in JSON"))
  end.

(** No response was sent (status 0 is not an HTTP status). *)
Definition no_response : Response := {| status := 0; body := JUndefined |}.

(** A handler run from the start of a request: the response sent and the
    calls issued.  A handler that threw, or ended without returning a
    response, would leave the request unanswered; both handlers below always
    return one ([playlist_responds], [experience_responds]). *)
Definition run (h : M unit) : Response * list Call :=
  match h [] with
  | (Respond r, tr) => (r, tr)
  | (_, tr) => (no_response, tr)
  end.

(** ** getSpotifyToken *)

Definition getSpotifyToken (cfg : Config) (w : World) : M JSValue :=
  try_catch
    (if negb (truthy (env (SPOTIFY_CLIENT_ID cfg)))
        || negb (truthy (env (SPOTIFY_CLIENT_SECRET cfg)))
     then throw (new_Error (str "Missing Spotify API credentials"))
     else
       data <- axios w (PostToken (template (SPOTIFY_CLIENT_ID cfg) ++ str ":"
                                   ++ template (SPOTIFY_CLIENT_SECRET cfg)) 5000) ;;
       if negb (truthy data) || negb (truthy (get data (str "access_token")))
       then throw (new_Error (str "Invalid response from Spotify API: No access token received"))
       else ret (get data (str "access_token")))
    (fun error =>
       throw (new_Error (str "Failed to get Spotify token: " ++ message error))).

(** ** GET /api/playlist *)

(** The code units of [c.toLowerCase()] that [/[^a-z\s]/g] does not remove.
    Lower-casing maps A-Z to a-z, U+0130 to i followed by U+0307, U+212A (the
    Kelvin sign) to k, leaves a-z and white space alone and yields no ASCII
    letter or white space from any other code unit. *)
Definition lower_letters (c : N) : jsstring :=
  if ((65 <=? c) && (c <=? 90))%N then [(c + 32)%N]
  else if ((97 <=? c) && (c <=? 122))%N || is_space c then [c]
  else if (c =? 304)%N then [105%N]
  else if (c =? 8490)%N then [107%N]
  else [].

(** [.replace(/\s+/g, ' ')]: every maximal run of white space becomes one
    space; [in_run] tells that the previous code unit was white space. *)
Fixpoint collapse_from (in_run : bool) (s : jsstring) : jsstring :=
  match s with
  | [] => []
  | c :: s' =>
      if is_space c
      then (if in_run then [] else [32%N]) ++ collapse_from true s'
      else c :: collapse_from false s'
  end.

Definition collapse_spaces (s : jsstring) : jsstring := collapse_from false s.

Definition formatMood (mood : jsstring) : jsstring :=
  trim (collapse_spaces (flat_map lower_letters mood)).

Definition searchQueries (formattedMood : jsstring) : list jsstring :=
  [ formattedMood ++ str " playlist";
    formattedMood ++ str " vibe playlist";
    formattedMood ++ str " " ++ formattedMood ++ str " playlist";
    formattedMood ++ str " feel playlist" ].

(** The Authorization header built from the token; [None] when the token
    has no string form and the template literal throws. *)
Definition bearer (token : JSValue) : option jsstring :=
  match ToString token with
  | Some text => Some (str "Bearer " ++ text)
  | None => None
  end.

(** [data?.playlists?.items] *)
Definition playlists_items (data : JSValue) : JSValue :=
  oget (oget data (str "playlists")) (str "items").

(** The body of the loop for one query: the first item when the result list
    has a positive length (the [break]), nothing otherwise; an error of the
    call, of building its request or of the comparison is logged and the
    loop goes on. *)
Definition search_once (w : World) (token : JSValue) (q : jsstring) : M (option JSValue) :=
  try_catch
    (authorization <- evaluate (bearer token) ;;
     data <- axios w (GetSearch q 5 authorization) ;;
     let items := playlists_items data in
     positive <- (if is_nullish items then ret false
                  else evaluate (has_positive_length items)) ;;
     if positive
     then ret (Some (get items (str "0")))
     else ret None)
    (fun error => ret None).

(** [for (const query of searchQueries) ...]; the result is the variable
    [playlist] after the loop, undefined when no query assigned it. *)
Fixpoint search_loop (w : World) (token : JSValue) (queries : list jsstring) : M JSValue :=
  match queries with
  | [] => ret JUndefined
  | q :: queries' =>
      found <- search_once w token q ;;
      match found with
      | Some playlist => ret playlist
      | None => search_loop w token queries'
      end
  end.

Definition playlistData (playlist : JSValue) : JSValue :=
  obj [ prop "id" (get playlist (str "id"));
        prop "name" (get playlist (str "name"));
        prop "description" (get playlist (str "description"));
        prop "external_urls" (get playlist (str "external_urls"));
        prop "images" (get playlist (str "images"));
        prop "owner" (get playlist (str "owner")) ].

(** The handler.  What the source has after the inner try statement (a
    validation of [selectedPlaylist], the mood description requested from
    the completion provider and a flat response) follows a [return] on every
    path and is never executed. *)
Definition playlist_handler (cfg : Config) (w : World) (req : Request) : M unit :=
  try_catch
    (let mood := param req "mood" in
     (if negb (truthy mood) then respond (json_error 400 "Mood is required") else ret tt) ;;;
     token <- getSpotifyToken cfg w ;;
     formattedMood <-
       match mood with
       | JStr s => ret (formatMood s)
       | _ => throw (new_Error (str "mood.toLowerCase is not a function"))
       end ;;
     playlist <- search_loop w token (searchQueries formattedMood) ;;
     (if negb (truthy playlist)
      then respond (json_error 404 "No playlists found. Try a different mood or check back later.")
      else ret tt) ;;;
     try_catch
       (respond {| status := 200; body := obj [prop "playlist" (playlistData playlist)] |})
       (fun error => respond (json_error 500 "Failed to process playlist data")))
    (fun error =>
       if bool_decide (response_status error = Some 401)
       then respond (json_error 401 "Unauthorized - Please check your API credentials")
       else respond (json_error 500 "Failed to fetch playlist. Please try again later.")).

(** ** GET /api/experience *)

Definition quoted (s : string) : jsstring := [34%N] ++ str s ++ [34%N].

Definition lines (l : list jsstring) : jsstring := join_with id [10%N] l.

(** The system message up to the mode-dependent instructions: the role, and
    the JSON structure the model must return. *)
Definition system_prompt_schema : jsstring :=
  lines
    [ str "You are a creative experience generator that strictly follows instructions.";
      str "            Generate a complete vibe card based on the user's mood and available ingredients.";
      str "            You MUST return ONLY a JSON object with the following structure and no other text:";
      str "            {";
      str "              " ++ quoted "playlist" ++ str ": {";
      str "                " ++ quoted "name" ++ str ": " ++ quoted "string" ++ str ",";
      str "                " ++ quoted "description" ++ str ": " ++ quoted "string" ++ str ",";
      str "                " ++ quoted "genre" ++ str ": " ++ quoted "string" ++ str ",";
      str "                " ++ quoted "theme" ++ str ": " ++ quoted "string" ++ str ",";
      str "                " ++ quoted "url" ++ str ": " ++ quoted "string";
      str "              },";
      str "              " ++ quoted "recipe" ++ str ": {";
      str "                " ++ quoted "title" ++ str ": " ++ quoted "string" ++ str ",";
      str "                " ++ quoted "ingredients" ++ str ": [" ++ quoted "string" ++ str "],";
      str "                " ++ quoted "instructions" ++ str ": " ++ quoted "string";
      str "              },";
      str "              " ++ quoted "movie" ++ str ": {";
      str "                " ++ quoted "title" ++ str ": " ++ quoted "string" ++ str ",";
      str "                " ++ quoted "year" ++ str ": " ++ quoted "number" ++ str ",";
      str "                " ++ quoted "description" ++ str ": " ++ quoted "string" ++ str ",";
      str "                " ++ quoted "genre" ++ str ": " ++ quoted "string" ++ str ",";
      str "                " ++ quoted "streaming" ++ str ": " ++ quoted "string";
      str "              },";
      str "              " ++ quoted "colorPalette" ++ str ": {";
      str "                " ++ quoted "name" ++ str ": " ++ quoted "string" ++ str ",";
      str "                " ++ quoted "colors" ++ str ": [";
      str "                  {";
      str "                    " ++ quoted "name" ++ str ": " ++ quoted "string" ++ str ",";
      str "                    " ++ quoted "hex" ++ str ": " ++ quoted "string";
      str "                  }";
      str "                ]";
      str "              },";
      str "              " ++ quoted "meditation" ++ str ": {";
      str "                " ++ quoted "prompt" ++ str ": " ++ quoted "string" ++ str ",";
      str "                " ++ quoted "duration" ++ str ": " ++ quoted "string";
      str "              },";
      str "              " ++ quoted "outfit" ++ str ": {";
      str "                " ++ quoted "description" ++ str ": " ++ quoted "string" ++ str ",";
      str "                " ++ quoted "season" ++ str ": " ++ quoted "string" ++ str ",";
      str "                " ++ quoted "style" ++ str ": " ++ quoted "string" ++ str ",";
      str "                " ++ quoted "colors" ++ str ": [" ++ quoted "string" ++ str "]";
      str "              },";
      str "              " ++ quoted "writing" ++ str ": {";
      str "                " ++ quoted "snippet" ++ str ": " ++ quoted "string" ++ str ",";
      str "                " ++ quoted "theme" ++ str ": " ++ quoted "string";
      str "              }";
      str "            }";
      str "            ";
      str "            " ].

(** The instructions of long mode. *)
Definition long_instructions : jsstring :=
  lines
    [ str "For the recipe, generate a complete creative recipe, with a fun name, a detailed list of at least 7 ingredients, and 7+ well-written cooking steps. Include serving suggestions and optional toppings.";
      str "              For the movie, recommend a movie matching the mood with a detailed 3-4 sentence synopsis, the genre, streaming platform, and a deep explanation of why this movie fits the mood emotionally.";
      str "              For the meditation, write a 7-10 sentence mini meditation script, with vivid calming imagery and specific breathing cues appropriate for the mood and duration.";
      str "              For the color palette, include a detailed mood-based description of the color scheme and when/where someone might feel inspired by it, mentioning the emotional impact of the colors.";
      str "              For the outfit, give a full outfit suggestion with 2-3 sentences on why it fits the mood and occasion, including specific clothing items, textures, and accessories.";
      str "              For the writing snippet, provide a 6-8 sentence micro-poem or story excerpt that deeply emotionally resonates with the mood and strongly matches the tone (motivational, romantic, nostalgic, etc.), focusing on evocative language." ].

(** The instructions of short mode. *)
Definition short_instructions : jsstring :=
  lines
    [ str "Keep descriptions concise, under 3 sentences for movie, meditation, outfit, and writing snippet. For the recipe, provide a brief summary and a short list of key ingredients and steps." ].

Definition system_prompt (longMode : bool) : jsstring :=
  system_prompt_schema ++ (if longMode then long_instructions else short_instructions).

(** The part of the user message about the ingredients; joining them throws
    ([None]) when one of them has no string form. *)
Definition with_ingredients (ingredients : list JSValue) : option jsstring :=
  if bool_decide (ingredients = []) then Some []
  else
    match join ingredients (str ", ") with
    | Some text => Some (str " with ingredients: " ++ text)
    | None => None
    end.

(** The request to the completion provider; [None] when building its user
    message throws. *)
Definition chat_request (cfg : Config) (mood : JSValue) (ingredients : list JSValue)
    (longMode : bool) : option ChatRequest :=
  match ToString mood, with_ingredients ingredients with
  | Some mood_text, Some ingredients_text =>
      Some {| model := str "llama3-8b-8192";
              system_content := system_prompt longMode;
              user_content :=
                str "Generate a vibe card for mood: " ++ [34%N] ++ mood_text ++ [34%N]
                ++ ingredients_text;
              temperature := of_decimal false 7 (-1);
              max_tokens := if longMode then 3000 else 2000;
              chat_authorization := str "Bearer " ++ template (GROQ_KEY cfg);
              chat_timeout := 30000 |}
  | _, _ => None
  end.

(** [groqResponse.data?.choices?.[0]?.message?.content] *)
Definition completion_content (data : JSValue) : JSValue :=
  oget (oget (oget (oget data (str "choices")) (str "0")) (str "message")) (str "content").

Definition requiredSections : list string :=
  ["playlist"; "recipe"; "movie"; "colorPalette"; "meditation"; "outfit"; "writing"]%string.

(** [for (const section of requiredSections) ...] *)
Fixpoint validate_sections (experience : JSValue) (sections : list string) : M unit :=
  match sections with
  | [] => ret tt
  | section :: sections' =>
      v <- read experience section ;;
      if negb (truthy v)
      then throw (new_Error (str "Missing required section: " ++ str section))
      else validate_sections experience sections'
  end.

(** [experience.playlist = value].  The handler is a module, so strict code:
    the assignment throws on a primitive.  Only an object can have passed
    the validation of the sections ([validated_is_object]). *)
Definition assign_playlist (experience value : JSValue) : M JSValue :=
  match experience with
  | JObj m => ret (JObj (<[str "playlist" := value]> m))
  | _ => throw (new_Error (str "Cannot create property 'playlist'"))
  end.

(** [playlistSearch.data?.playlists?.items?.[0]] *)
Definition first_item (data : JSValue) : JSValue :=
  oget (playlists_items data) (str "0").

(** The object literal assigned to [experience.playlist]: the generated
    section spread, then the four properties of the catalog playlist. *)
Definition merged_playlist (generated name description url images : JSValue) : JSValue :=
  JObj (<[str "images" := images]>
          (<[str "url" := url]>
             (<[str "description" := description]>
                (<[str "name" := name]> (spread generated))))).

(** Validate mood *)
Definition validate_mood (mood : JSValue) : M unit :=
  if negb (truthy mood) || negb (is_string mood)
  then respond {| status := 400;
                  body := obj [prop "error" (JStr (str "Mood is required and must be a string"));
                               prop "details" (JStr (str "Please provide a valid mood parameter"))] |}
  else ret tt.

(** Parse ingredients safely *)
Definition parse_ingredients (req : Request) : M (list JSValue) :=
  try_catch
    (if truthy (param req "ingredients")
     then
       parsed <- JSON_parse (param req "ingredients") ;;
       match parsed with
       | JArr l => ret l
       | _ => throw (new_Error (str "Ingredients must be an array"))
       end
     else ret [])
    (fun error =>
       respond {| status := 400;
                  body := obj [prop "error" (JStr (str "Invalid ingredients format"));
                               prop "details" (JStr (str "Ingredients must be a valid JSON array"))] |}).

(** Validate and parse Groq response; validate experience structure *)
Definition parse_experience (data : JSValue) : M JSValue :=
  (if negb (truthy (completion_content data))
   then throw (new_Error (str "Invalid response from Groq API"))
   else ret tt) ;;;
  experience <-
    try_catch
      (JSON_parse (completion_content data))
      (fun error => throw (new_Error (str "Failed to parse AI response"))) ;;
  validate_sections experience requiredSections ;;;
  ret experience.

(** Get Spotify playlist: every error in it is logged and the experience
    goes on as the model generated it. *)
Definition enrich (cfg : Config) (w : World) (mood experience : JSValue) : M JSValue :=
  try_catch
    (token <- getSpotifyToken cfg w ;;
     mood_text <- evaluate (ToString mood) ;;
     authorization <- evaluate (bearer token) ;;
     data <- axios w (GetSearch (mood_text ++ str " playlist") 1 authorization) ;;
     if truthy (first_item data)
     then
       let playlist := first_item data in
       let name := get playlist (str "name") in
       let description := get playlist (str "description") in
       url <- read (get playlist (str "external_urls")) "spotify" ;;
       let images := get playlist (str "images") in
       assign_playlist experience
         (merged_playlist (get experience (str "playlist")) name description url images)
     else ret experience)
    (fun error => ret experience).

(** Handle specific error cases *)
Definition experience_error (error : Error) : M unit :=
  if bool_decide (response_status error = Some 401)
  then respond (json_error 401 "Unauthorized - Please check your API credentials")
  else if bool_decide (response_status error = Some 429)
  then respond (json_error 429 "Rate limit exceeded - Please try again later")
  else if includes (message error) (str "Groq")
  then respond (json_error 500 "Failed to generate experience. Please try again later.")
  else respond {| status := 500;
                  body := obj [prop "error" (JStr (str "Failed to fetch experience. Please try again later."));
                               prop "details" (JStr (message error))] |}.

Definition experience_handler (cfg : Config) (w : World) (req : Request) : M unit :=
  try_catch
    (let mood := param req "mood" in
     validate_mood mood ;;;
     ingredients <- parse_ingredients req ;;
     let longMode := is_the_string (param req "longMode") (str "true") in
     request <- evaluate (chat_request cfg mood ingredients longMode) ;;
     data <- axios w (PostChat request) ;;
     experience <- parse_experience data ;;
     enriched <- enrich cfg w mood experience ;;
     respond {| status := 200; body := enriched |})
    experience_error.

(** The two routes: the response sent and the outbound calls issued, in
    order. *)
Definition playlist (cfg : Config) (w : World) (req : Request) : Response * list Call :=
  run (playlist_handler cfg w req).

Definition experience (cfg : Config) (w : World) (req : Request) : Response * list Call :=
  run (experience_handler cfg w req).

End Server.

(** * Sample requests and providers *)

Module Sample.
Import JS Server.

Definition cfg : Config :=
  {| SPOTIFY_CLIENT_ID := Some (str "id");
     SPOTIFY_CLIENT_SECRET := Some (str "secret");
     GROQ_KEY := Some (str "key") |}.

Definition request (params : list (jsstring * JSValue)) : Request :=
  {| query := list_to_map params |}.

(** A chat completion whose first choice has the given content. *)
Definition completion (content : JSValue) : JSValue :=
  obj [prop "choices" (JArr [obj [prop "message" (obj [prop "content" content])]])].

(** The text of an object with the seven sections; the playlist section is
    given, the other six are small objects. *)
Definition sections_text (playlist_text : jsstring) : jsstring :=
  str "{" ++ quoted "playlist" ++ str ":" ++ playlist_text
  ++ str "," ++ quoted "recipe" ++ str ":{" ++ quoted "title" ++ str ":" ++ quoted "Toast" ++ str "}"
  ++ str "," ++ quoted "movie" ++ str ":{" ++ quoted "year" ++ str ":1999}"
  ++ str "," ++ quoted "colorPalette" ++ str ":{" ++ quoted "colors" ++ str ":[]}"
  ++ str "," ++ quoted "meditation" ++ str ":{" ++ quoted "duration" ++ str ":" ++ quoted "5 minutes" ++ str "}"
  ++ str "," ++ quoted "outfit" ++ str ":{" ++ quoted "season" ++ str ":" ++ quoted "fall" ++ str "}"
  ++ str "," ++ quoted "writing" ++ str ":{" ++ quoted "theme" ++ str ":" ++ quoted "hope" ++ str "}}".

Definition generated_playlist_text : jsstring :=
  str "{" ++ quoted "name" ++ str ":" ++ quoted "Made up" ++ str ","
  ++ quoted "genre" ++ str ":" ++ quoted "pop" ++ str ","
  ++ quoted "theme" ++ str ":" ++ quoted "rain" ++ str "}".

Definition experience_text : jsstring := sections_text generated_playlist_text.

Definition token_data : JSValue := obj [prop "access_token" (JStr (str "tok"))].

Definition search_data (items : list JSValue) : JSValue :=
  obj [prop "playlists" (obj [prop "items" (JArr items)])].

Definition catalog_playlist : JSValue :=
  obj [ prop "id" (JStr (str "37i9"));
        prop "name" (JStr (str "Rainy Day"));
        prop "description" JNull;
        prop "external_urls" (obj [prop "spotify" (JStr (str "https://open.spotify.com/playlist/37i9"))]);
        prop "images" (JArr []) ].

Definition rejected (msg : string) (code : option Z) : AxiosResult :=
  Rejected {| message := str msg; response_status := code |}.

(** Providers that answer each kind of call the same way whatever came
    before. *)
Definition providers (token : AxiosResult) (search : jsstring -> AxiosResult)
    (chat : AxiosResult) : World :=
  fun _ c =>
    match c with
    | PostToken _ _ => token
    | GetSearch q _ _ => search q
    | PostChat _ => chat
    end.

Definition all_up : World :=
  providers (Resolved token_data)
            (fun _ => Resolved (search_data [catalog_playlist]))
            (Resolved (completion (JStr experience_text))).

(** The same providers, the completion apart. *)
Definition completion_returns (content : jsstring) : World :=
  providers (Resolved token_data)
            (fun _ => Resolved (search_data [catalog_playlist]))
            (Resolved (completion (JStr content))).

(** The seven sections, the playlist section being null. *)
Definition null_playlist_text : jsstring := sections_text (str "null").

(** A first search result without [external_urls]. *)
Definition bare_playlist : JSValue := obj [prop "name" (JStr (str "Rainy Day"))].

Definition bare_match : World :=
  providers (Resolved token_data)
            (fun _ => Resolved (search_data [bare_playlist]))
            (Resolved (completion (JStr experience_text))).

(** The catalog rejects the credentials. *)
Definition catalog_unauthorized : World :=
  providers (rejected "Request failed with status code 401" (Some 401))
            (fun _ => rejected "Request failed with status code 401" (Some 401))
            (Resolved (completion (JStr experience_text))).

(** The completion provider rejects the call with the given status. *)
Definition completion_rejects (code : Z) : World :=
  providers (Resolved token_data)
            (fun _ => Resolved (search_data [catalog_playlist]))
            (rejected "Request failed" (Some code)).


Definition rainy : Request := request [(str "mood", JStr (str "rainy"))].

End Sample.

(** * Reading the requests: the notions the properties are stated with *)

Module Notions.
Import JS Server.

(** The mood passes "Validate mood". *)
Definition valid_mood (req : Request) : bool :=
  truthy (param req "mood") && is_string (param req "mood").

(** What "Parse ingredients safely" leaves in [ingredients]; [None] when it
    answers 400. *)
Definition ingredients_of (req : Request) : option (list JSValue) :=
  if truthy (param req "ingredients") then
    match parse_value (param req "ingredients") with
    | Some (JArr l) => Some l
    | _ => None
    end
  else Some [].

(** The mood is a string of white space only (the empty string included). *)
Definition whitespace_only (v : JSValue) : bool :=
  match v with
  | JStr s => forallb is_space s
  | _ => false
  end.

Definition longMode_of (req : Request) : bool :=
  is_the_string (param req "longMode") (str "true").

(** The completion call of a request with the given ingredient list; [None]
    when building it throws and no call is made. *)
Definition chat_call (cfg : Config) (req : Request) (ingredients : list JSValue)
  : option Call :=
  match chat_request cfg (param req "mood") ingredients (longMode_of req) with
  | Some r => Some (PostChat r)
  | None => None
  end.

(** The first required section, in the order of [requiredSections], for
    which the value has nothing truthy. *)
Definition first_missing (v : JSValue) : option string :=
  List.find (fun section => negb (truthy (get v (str section)))) requiredSections.

(** The 500 response of the last branch of the error handling. *)
Definition failure (details : jsstring) : Response :=
  {| status := 500;
     body := obj [prop "error" (JStr (str "Failed to fetch experience. Please try again later."));
                  prop "details" (JStr details)] |}.

(** The response of "Handle specific error cases". *)
Definition error_response (error : Error) : Response :=
  if bool_decide (response_status error = Some 401)
  then json_error 401 "Unauthorized - Please check your API credentials"
  else if bool_decide (response_status error = Some 429)
  then json_error 429 "Rate limit exceeded - Please try again later"
  else if includes (message error) (str "Groq")
  then json_error 500 "Failed to generate experience. Please try again later."
  else failure (message error).

Definition mood_rejected : Response :=
  {| status := 400;
     body := obj [prop "error" (JStr (str "Mood is required and must be a string"));
                  prop "details" (JStr (str "Please provide a valid mood parameter"))] |}.

Definition ingredients_rejected : Response :=
  {| status := 400;
     body := obj [prop "error" (JStr (str "Invalid ingredients format"));
                  prop "details" (JStr (str "Ingredients must be a valid JSON array"))] |}.

Definition token_call (cfg : Config) : Call :=
  PostToken (template (SPOTIFY_CLIENT_ID cfg) ++ str ":" ++ template (SPOTIFY_CLIENT_SECRET cfg)) 5000.

(** The search call of the enrichment for a mood, made with a token; [None]
    when building it throws and no call is made. *)
Definition enrichment_search (mood token : JSValue) : option Call :=
  match ToString mood, bearer token with
  | Some mood_text, Some authorization =>
      Some (GetSearch (mood_text ++ str " playlist") 1 authorization)
  | _, _ => None
  end.

(** How the catalog enrichment of /api/experience goes, the calls in [tr]
    having been issued before it: no token, a search that threw (the call
    was rejected, or its request could not be built), a search without a
    truthy first item, or a first item. *)
Inductive Enrichment :=
| TokenFailed
| SearchFailed
| NoMatch
| Match (playlist : JSValue).

Definition enrichment (cfg : Config) (w : World) (mood : JSValue) (tr : list Call) : Enrichment :=
  match getSpotifyToken cfg w tr with
  | (Normal token, tr') =>
      match enrichment_search mood token with
      | Some c =>
          match w tr' c with
          | Resolved data => if truthy (first_item data) then Match (first_item data) else NoMatch
          | Rejected _ => SearchFailed
          end
      | None => SearchFailed
      end
  | _ => TokenFailed
  end.

(** The experience after "Get Spotify playlist", and the calls issued by
    then. *)
Definition enriched (cfg : Config) (w : World) (mood experience : JSValue) (tr : list Call)
  : JSValue * list Call :=
  match enrich cfg w mood experience tr with
  | (Normal v, tr') => (v, tr')
  | (_, tr') => (experience, tr')
  end.

(** The Authorization header of the searches made with a token.  (With a
    token that has no string form no search is made: [search_once].) *)
Definition authorization (token : JSValue) : jsstring := default [] (bearer token).

(** The search call of /api/playlist for one query. *)
Definition search_call (token : JSValue) (q : jsstring) : Call :=
  GetSearch q 5 (authorization token).

(** An answer to a search call of /api/playlist carries a result list of
    positive length: the comparison of its length with 0 gives true. *)
Definition has_results (a : AxiosResult) : bool :=
  match a with
  | Resolved data =>
      negb (is_nullish (playlists_items data))
      && default false (has_positive_length (playlists_items data))
  | Rejected _ => false
  end.

(** The first item of the result list of an answer. *)
Definition first_result (a : AxiosResult) : JSValue :=
  match a with
  | Resolved data => get (playlists_items data) (str "0")
  | Rejected _ => JUndefined
  end.

(** The answer to the search call of the i-th query of /api/playlist, the
    calls in [tr] and the earlier queries having been issued before it. *)
Definition answer_of (w : World) (token : JSValue) (tr : list Call)
    (queries : list jsstring) (i : nat) : AxiosResult :=
  match queries !! i with
  | Some q => w (tr ++ map (search_call token) (take i queries)) (search_call token q)
  | None => Rejected (new_Error [])
  end.

Definition no_playlists : Response :=
  json_error 404 "No playlists found. Try a different mood or check back later.".

Definition playlist_failed : Response :=
  json_error 500 "Failed to fetch playlist. Please try again later.".

Definition playlist_found (playlist : JSValue) : Response :=
  {| status := 200; body := obj [prop "playlist" (playlistData playlist)] |}.

End Notions.

(** * The page (App) *)

Module App.
Import JS.

(** ** The history *)

(** [l.slice(-n)]: the last n elements. *)
Definition slice_last {A} (n : nat) (l : list A) : list A :=
  drop (length l - n) l.

(** One entry of the history: [{ id, mood, experience, timestamp }]. *)
Definition history_entry (id : Number) (mood : jsstring) (experience : JSValue)
    (timestamp : jsstring) : JSValue :=
  JObj (list_to_map [ (str "id", JNum id); (str "mood", JStr mood);
                      (str "experience", experience);
                      (str "timestamp", JStr timestamp) ]).

(** The update of the history after a generation:
    [[...prev, entry].slice(-10)]. *)
Definition push_history (prev : list JSValue) (entry : JSValue) : list JSValue :=
  slice_last 10 (prev ++ [entry]).

(** ** The ingredients field *)

(** [s.split(',')] for a one-character separator. *)
Fixpoint split (sep : N) (s : jsstring) : list jsstring :=
  match s with
  | [] => [[]]
  | c :: s' =>
      if (c =? sep)%N then [] :: split sep s'
      else match split sep s' with
           | piece :: pieces => (c :: piece) :: pieces
           | [] => [[c]]
           end
  end.

(** [ingredients.trim().split(',').map(i => i.trim()).filter(Boolean)] *)
Definition ingredientsArray (ingredients : jsstring) : list jsstring :=
  filter (fun i => i <> []) (map trim (split 44 (trim ingredients))).

(** ** JSON.stringify of an array of strings *)

Definition hex_digit (d : N) : N := (if d <? 10 then 48 + d else 87 + d)%N.

(** The escape of a code unit: a backslash, u and four lower-case hexadecimal
    digits. *)
Definition unicode_escape (c : N) : jsstring :=
  [ 92%N; 117%N; hex_digit (c / 4096 mod 16); hex_digit (c / 256 mod 16);
    hex_digit (c / 16 mod 16); hex_digit (c mod 16) ].

Definition is_high_surrogate (c : N) : bool := ((55296 <=? c) && (c <=? 56319))%N.
Definition is_low_surrogate (c : N) : bool := ((56320 <=? c) && (c <=? 57343))%N.

(** The characters of a quoted string: the quote, the backslash and the
    control characters are escaped, and so is a surrogate that is not part
    of a pair. *)
Fixpoint quote_body (s : jsstring) : jsstring :=
  match s with
  | [] => []
  | c :: s' =>
      if (c =? 8)%N then str "\b" ++ quote_body s'
      else if (c =? 9)%N then str "\t" ++ quote_body s'
      else if (c =? 10)%N then str "\n" ++ quote_body s'
      else if (c =? 12)%N then str "\f" ++ quote_body s'
      else if (c =? 13)%N then str "\r" ++ quote_body s'
      else if (c =? 34)%N then [92%N; 34%N] ++ quote_body s'
      else if (c =? 92)%N then [92%N; 92%N] ++ quote_body s'
      else if (c <? 32)%N then unicode_escape c ++ quote_body s'
      else if is_high_surrogate c then
        match s' with
        | d :: s'' =>
            if is_low_surrogate d then c :: d :: quote_body s''
            else unicode_escape c ++ quote_body s'
        | [] => unicode_escape c
        end
      else if is_low_surrogate c then unicode_escape c ++ quote_body s'
      else c :: quote_body s'
  end.

Definition quote (s : jsstring) : jsstring := [34%N] ++ quote_body s ++ [34%N].

(** [JSON.stringify(l)] for an array l of strings. *)
Definition stringify_strings (l : list jsstring) : jsstring :=
  str "[" ++ join_with quote (str ",") l ++ str "]".

(** ** getSpotifyPlaylistId *)

Definition is_alnum (c : N) : bool :=
  ((97 <=? c) && (c <=? 122) || (65 <=? c) && (c <=? 90) || (48 <=? c) && (c <=? 57))%N.

(** [s.match(/<literal>([a-zA-Z0-9]+)/)]: the capture of the leftmost match,
    that is the longest run of letters and digits after the first
    occurrence of the literal that is followed by one. *)
Fixpoint match_after (literal s : jsstring) : option jsstring :=
  match (if is_prefix literal s then fst (span is_alnum (drop (length literal) s)) else []) with
  | c :: id => Some (c :: id)
  | [] =>
      match s with
      | [] => None
      | _ :: s' => match_after literal s'
      end
  end.

(** The function; [None] is null.  A url that is not a string has no
    [match] method: the call throws and the catch block returns null. *)
Definition getSpotifyPlaylistId (url : JSValue) : option jsstring :=
  if negb (truthy url) then None
  else
    match url with
    | JStr s =>
        match match_after (str "playlist/") s with
        | Some id => Some id
        | None =>
            match match_after (str "embed/playlist/") s with
            | Some id => Some id
            | None => None
            end
        end
    | _ => None
    end.

(** The address of the embedded player the page builds from an id. *)
Definition embed_src (id : jsstring) : jsstring :=
  str "https://open.spotify.com/embed/playlist/" ++ id ++ str "?utm_source=generator".

(** ** handleSubmit *)

Module ERROR_MESSAGES.

Definition GENERAL : jsstring := [10060%N] ++ str " Failed to fetch data".

Definition INVALID_MOOD : jsstring := [10060%N] ++ str " Please enter a valid mood".

Definition RATE_LIMIT : jsstring :=
  [9203%N] ++ str " Rate limit exceeded. Please try again in a few minutes.".

Definition UNAUTHORIZED : jsstring :=
  [55357%N; 56594%N] ++ str " Authentication error. Please check your API credentials.".

End ERROR_MESSAGES.

Record LoadingStates := {
  loading_playlist : bool;
  loading_recipe : bool;
  loading_movie : bool;
  loading_colorPalette : bool;
  loading_meditation : bool;
  loading_outfit : bool;
  loading_writing : bool
}.

Definition all_loading (b : bool) : LoadingStates :=
  {| loading_playlist := b; loading_recipe := b; loading_movie := b;
     loading_colorPalette := b; loading_meditation := b; loading_outfit := b;
     loading_writing := b |}.

(** The state of the page that handleSubmit reads and sets. *)
Record State := {
  mood : jsstring;
  ingredients : jsstring;
  longMode : bool;
  experience : JSValue;
  error : JSValue;
  history : list JSValue;
  loading : bool;
  loadingStates : LoadingStates
}.

(** The parameters of the request to /api/experience. *)
Record Params := {
  params_mood : jsstring;
  params_ingredients : jsstring;
  params_longMode : bool
}.

(** What awaiting the request gives: a response with a 2xx status, a
    response with another status ([error.response]), or an error without
    response. *)
Inductive Reply :=
| Fulfilled (data : JSValue)
| Refused (status : Z) (data : JSValue)
| Unanswered.

(** [typeof v === 'object'] *)
Definition is_object (v : JSValue) : bool :=
  match v with
  | JNull | JArr _ | JObj _ => true
  | _ => false
  end.

(** [a || b] *)
Definition or_else (a b : JSValue) : JSValue := if truthy a then a else b.

Definition set_error (st : State) (e : JSValue) : State :=
  {| mood := mood st; ingredients := ingredients st; longMode := longMode st;
     experience := experience st; error := e; history := history st;
     loading := loading st; loadingStates := loadingStates st |}.

(** The state after handleSubmit and the requests it made.  [now] and
    [timestamp] are [Date.now()] and [new Date().toISOString()] at the time
    the history is updated.  When the body of an error response is null or
    undefined, reading its error throws in the catch block: the error text
    is left as it was set at the start, and the finally block runs. *)
Definition handleSubmit (st : State) (net : Params -> Reply) (now : Number)
    (timestamp : jsstring) : State * list Params :=
  if bool_decide (trim (mood st) = []) then
    (set_error st (JStr ERROR_MESSAGES.INVALID_MOOD), [])
  else
    let params :=
      {| params_mood := mood st;
         params_ingredients := stringify_strings (ingredientsArray (ingredients st));
         params_longMode := longMode st |} in
    let '(experience', error', history') :=
      match net params with
      | Fulfilled data =>
          if negb (truthy data) || negb (is_object data)
          then (JNull, JStr ERROR_MESSAGES.GENERAL, history st)
          else (data, JStr [],
                push_history (history st) (history_entry now (mood st) data timestamp))
      | Refused status data =>
          if status =? 429 then (JNull, JStr ERROR_MESSAGES.RATE_LIMIT, history st)
          else if status =? 401 then (JNull, JStr ERROR_MESSAGES.UNAUTHORIZED, history st)
          else if is_nullish data then (JNull, JStr [], history st)
          else (JNull,
                or_else (get data (str "error"))
                  (or_else (get data (str "details")) (JStr ERROR_MESSAGES.GENERAL)),
                history st)
      | Unanswered => (JNull, JStr ERROR_MESSAGES.GENERAL, history st)
      end in
    ({| mood := mood st; ingredients := ingredients st; longMode := longMode st;
        experience := experience'; error := error'; history := history';
        loading := false; loadingStates := all_loading false |},
     [params]).

End App.

(** * The page and the server together *)

Module Wire.
Import JS Server.

(** The query the server is handed when the request of the page arrives as
    sent: axios writes each parameter in its string form (true or false for
    the flag) into the query string, and Express hands the decoded strings
    over in [req.query]. *)
Definition received (p : App.Params) : Request :=
  {| query :=
       list_to_map
         [ (str "mood", JStr (App.params_mood p));
           (str "ingredients", JStr (App.params_ingredients p));
           (str "longMode", JStr (if App.params_longMode p then str "true" else str "false")) ] |}.

(** What the page awaits when the server has answered with a status that is
    not 2xx: axios rejects, with the status and the body in
    [error.response]. *)
Definition refusal (r : Response) : App.Reply := App.Refused (status r) (body r).

End Wire.

(** * Further notions *)

Module More.
Import JS Server Notions.

(** The request got as far as a validated completion output: the mood and
    the ingredients are valid, the completion call was answered with
    [data], and the content of [data] parses to [v], which has the seven
    sections. *)
Definition generated (cfg : Config) (w : World) (req : Request)
    (l : list JSValue) (data v : JSValue) : Prop :=
  valid_mood req = true /\ ingredients_of req = Some l
  /\ (exists c, chat_call cfg req l = Some c /\ w [] c = Resolved data)
  /\ truthy (completion_content data) = true
  /\ parse_value (completion_content data) = Some v
  /\ is_nullish v = false /\ first_missing v = None.

(** A lower-case letter. *)
Definition is_lower (c : N) : bool := ((97 <=? c) && (c <=? 122))%N.

(** No two spaces in a row, none at the start when [prev] is set. *)
Fixpoint single_spaced (prev : bool) (s : jsstring) : bool :=
  match s with
  | [] => true
  | c :: s' =>
      if (c =? 32)%N then negb prev && single_spaced true s' else single_spaced false s'
  end.

(** The shape of a normalized mood: letters a to z and spaces, a letter
    first and last, no two spaces in a row. *)
Definition normalized (m : jsstring) : Prop :=
  (forall c, In c m -> is_lower c = true \/ c = 32%N)
  /\ (forall c, head m = Some c -> is_lower c = true)
  /\ (forall c, last m = Some c -> is_lower c = true)
  /\ (forall i, m !! i = Some 32%N -> m !! S i <> Some 32%N).

(** The escape of a code unit reads back as that code unit. *)
Definition escape_reads_back (c : N) : bool :=
  match App.unicode_escape c with
  | [_; _; h1; h2; h3; h4] =>
      match JSON.hex4 h1 h2 h3 h4 with
      | Some u => (u =? c)%N
      | None => false
      end
  | _ => false
  end.

(** Sample data. *)

(** A request whose one ingredient is an object with a toString key. *)
Definition unprintable : Request :=
  Sample.request
    [ (str "mood", JStr (str "sad"));
      (str "ingredients",
       JStr (str "[{" ++ Server.quoted "toString" ++ str ":1}]")) ].


Definition generated_sample : JSValue :=
  default JNull (JSON.parse Sample.experience_text).

Definition two_moods : Request :=
  Sample.request [(str "mood", JArr [JStr (str "rainy"); JStr (str "sunny")])].

Definition entry (n : nat) : JSValue := JNum (of_nat n).

Definition page : App.State :=
  {| App.mood := str " rainy ";
     App.ingredients := str " eggs , , milk";
     App.longMode := true;
     App.experience := JNull;
     App.error := JStr [];
     App.history := [];
     App.loading := false;
     App.loadingStates := App.all_loading false |}.

End More.

(** * Properties *)

Import JS Server Notions More.

(** ** The JSON reader has fuel enough *)

Module JSON_fuel.
Import JS JS.JSON.

Lemma skip_ws_length (s : jsstring) : (length (skip_ws s) <= length s)%nat.
Proof. induction s as [| c s IH]; simpl; [lia |]. destruct (is_ws c); simpl; lia. Qed.

Lemma string_body_length (n : nat) :
  forall s t r, (length s <= n)%nat -> string_body s = Some (t, r) ->
                (length r < length s)%nat.
Proof.
  induction n as [| n IH]; intros s t r Hn H.
  - destruct s; [discriminate | simpl in Hn; lia].
  - destruct s as [| c s1]; [discriminate |]. simpl in H, Hn.
    assert (forall u s' t r, (length s' <= n)%nat ->
              match string_body s' with
              | Some (t0, r0) => Some (u :: t0, r0)
              | None => None
              end = Some (t, r) -> (length r < length s')%nat) as Hrec.
    { intros u s' t' r' Hs' H'. destruct (string_body s') as [[t0 r0] |] eqn:E; [| discriminate].
      injection H' as <- <-. by eapply IH. }
    destruct (c =? 34)%N; [injection H as <- <-; simpl; lia |].
    destruct (c <? 32)%N; [discriminate |].
    destruct (c =? 92)%N.
    + destruct s1 as [| e s2]; [discriminate |]. simpl in Hn |- *.
      repeat (match type of H with
              | (if ?b then _ else _) = _ => destruct b
              end;
              [apply Hrec in H; [lia | lia] |]).
      destruct (e =? 117)%N; [| discriminate].
      destruct s2 as [| h1 [| h2 [| h3 [| h4 s3]]]]; try discriminate.
      destruct (hex4 h1 h2 h3 h4); [| discriminate].
      destruct (string_body s3) as [[t0 r0] |] eqn:E; [| discriminate].
      injection H as <- <-. simpl in Hn |- *.
      apply IH in E; [lia | lia].
    + apply Hrec in H; [simpl; lia | lia].
Qed.

Lemma span_length (p : N -> bool) (s a r : jsstring) :
  span p s = (a, r) -> length s = (length a + length r)%nat.
Proof.
  revert a r. induction s as [| c s IH]; intros a r H; simpl in H.
  - injection H as <- <-. reflexivity.
  - destruct (p c).
    + destruct (span p s) as [a' r'] eqn:E. injection H as <- <-.
      simpl. by rewrite (IH a' r').
    + injection H as <- <-. reflexivity.
Qed.

Lemma number_length (s r : jsstring) (x : Number) :
  number s = Some (x, r) -> (length r < length s)%nat.
Proof.
  unfold number. intros H.
  destruct (match s with
            | c :: t => if (c =? 45)%N then (true, t) else (false, s)
            | [] => (false, s)
            end) as [neg s0] eqn:E0.
  assert (length s0 <= length s)%nat as H0.
  { destruct s as [| c t]; [injection E0 as <- <-; lia |].
    destruct (c =? 45)%N; injection E0 as <- <-; simpl; lia. }
  destruct (match s0 with
            | c :: t => if (c =? 48)%N then ([c], t) else span is_digit s0
            | [] => ([], s0)
            end) as [ip r1] eqn:E1.
  assert (length s0 = length ip + length r1)%nat as H1.
  { destruct s0 as [| c t]; [injection E1 as <- <-; reflexivity |].
    destruct (c =? 48)%N; [injection E1 as <- <-; reflexivity | by apply span_length in E1]. }
  destruct ip as [| d ip]; [discriminate |]. simpl in H1.
  match type of H with
  | match ?f with _ => _ end = _ => destruct f as [[fp r2] |] eqn:E2; [| discriminate]
  end.
  assert (length r2 <= length r1)%nat as H2.
  { destruct r1 as [| c t]; [injection E2 as <- <-; lia |].
    destruct (c =? 46)%N; [| injection E2 as <- <-; lia].
    destruct (span is_digit t) as [[| f fp'] r'] eqn:E; [discriminate |].
    injection E2 as <- <-. apply span_length in E. simpl in *. lia. }
  match type of H with
  | match ?f with _ => _ end = _ => destruct f as [[ex r3] |] eqn:E3; [| discriminate]
  end.
  injection H as <- <-.
  assert (length r3 <= length r2)%nat; [| lia].
  destruct r2 as [| c t]; [injection E3 as <- <-; lia |].
  destruct (_ || _)%bool; [| injection E3 as <- <-; lia].
  destruct (match t with
            | d :: u => if (d =? 43)%N then (false, u)
                        else if (d =? 45)%N then (true, u) else (false, t)
            | [] => (false, t)
            end) as [eneg t'] eqn:E4.
  assert (length t' <= length t)%nat.
  { destruct t as [| d0 u]; [injection E4 as <- <-; lia |].
    destruct (d0 =? 43)%N; [injection E4 as <- <-; simpl; lia |].
    destruct (d0 =? 45)%N; injection E4 as <- <-; simpl; lia. }
  destruct (span is_digit t') as [[| f ds] r'] eqn:E; [discriminate |].
  injection E3 as <- <-. apply span_length in E. simpl in *. lia.
Qed.

Lemma literal_length (word : jsstring) (v v' : JSValue) (s r : jsstring) :
  word <> [] -> literal word v s = Some (v', r) -> (length r < length s)%nat.
Proof.
  unfold literal. intros Hw H. destruct (is_prefix word s) eqn:E; [| discriminate].
  injection H as <- <-. rewrite length_drop.
  destruct word; [done |]. destruct s; [discriminate |]. simpl. lia.
Qed.

(** Whatever is read, at least one code unit is consumed. *)
Lemma value_length (fuel : nat) :
  (forall s v r, value fuel s = Some (v, r) -> (length r < length s)%nat)
  /\ (forall s acc v r, elements fuel s acc = Some (v, r) -> (length r < length s)%nat)
  /\ (forall s acc v r, members fuel s acc = Some (v, r) -> (length r < length s)%nat).
Proof.
  induction fuel as [| fuel (IHv & IHe & IHm)]; [repeat split; discriminate |].
  repeat split.
  - intros s v r H. cbn [value] in H.
    pose proof (skip_ws_length s) as Hs.
    destruct (skip_ws s) as [| c t]; [discriminate |]. simpl in Hs.
    destruct (c =? 123)%N.
    { pose proof (skip_ws_length t) as Ht.
      destruct (skip_ws t) as [| d t']; [discriminate |]. simpl in Ht.
      destruct (d =? 125)%N; [injection H as <- <-; lia | apply IHm in H; lia]. }
    destruct (c =? 91)%N.
    { pose proof (skip_ws_length t) as Ht.
      destruct (skip_ws t) as [| d t']; [discriminate |]. simpl in Ht.
      destruct (d =? 93)%N; [injection H as <- <-; lia | apply IHe in H; lia]. }
    destruct (c =? 34)%N.
    { destruct (string_body t) as [[t0 r0] |] eqn:E; [| discriminate].
      injection H as <- <-. apply (string_body_length _ _ _ _ (le_n _)) in E. lia. }
    destruct (c =? 116)%N; [apply literal_length in H; [simpl in H; lia | done] |].
    destruct (c =? 102)%N; [apply literal_length in H; [simpl in H; lia | done] |].
    destruct (c =? 110)%N; [apply literal_length in H; [simpl in H; lia | done] |].
    destruct (number (c :: t)) as [[x r'] |] eqn:E; [| discriminate].
    injection H as <- <-. apply number_length in E. simpl in E. lia.
  - intros s acc v r H. cbn [elements] in H.
    destruct (value fuel s) as [[v0 r0] |] eqn:E; [| discriminate].
    apply IHv in E. pose proof (skip_ws_length r0) as Hs.
    destruct (skip_ws r0) as [| c t]; [discriminate |]. simpl in Hs.
    destruct (c =? 44)%N; [apply IHe in H; lia |].
    destruct (c =? 93)%N; [injection H as <- <-; lia | discriminate].
  - intros s acc v r H. cbn [members] in H.
    pose proof (skip_ws_length s) as Hs.
    destruct (skip_ws s) as [| q t]; [discriminate |]. simpl in Hs.
    destruct (q =? 34)%N; [| discriminate].
    destruct (string_body t) as [[k r1] |] eqn:Ek; [| discriminate].
    apply (string_body_length _ _ _ _ (le_n _)) in Ek.
    pose proof (skip_ws_length r1) as Hs1.
    destruct (skip_ws r1) as [| c r2]; [discriminate |]. simpl in Hs1.
    destruct (c =? 58)%N; [| discriminate].
    destruct (value fuel r2) as [[v0 r3] |] eqn:E; [| discriminate].
    apply IHv in E. pose proof (skip_ws_length r3) as Hs3.
    destruct (skip_ws r3) as [| d r4]; [discriminate |]. simpl in Hs3.
    destruct (d =? 44)%N; [apply IHm in H; lia |].
    destruct (d =? 125)%N; [injection H as <- <-; lia | discriminate].
Qed.

(** Past twice the length of the text the fuel no longer matters. *)
Lemma fuel_irrelevant (f1 : nat) :
  (forall f2 s, (2 * length s + 1 <= f1)%nat -> (2 * length s + 1 <= f2)%nat ->
                value f1 s = value f2 s)
  /\ (forall f2 s acc, (2 * length s + 2 <= f1)%nat -> (2 * length s + 2 <= f2)%nat ->
                       elements f1 s acc = elements f2 s acc)
  /\ (forall f2 s acc, (2 * length s + 2 <= f1)%nat -> (2 * length s + 2 <= f2)%nat ->
                       members f1 s acc = members f2 s acc).
Proof.
  induction f1 as [| f1 (IHv & IHe & IHm)]; [repeat split; intros; lia |].
  repeat split.
  - intros [| f2] s H1 H2; [lia |]. cbn [value].
    pose proof (skip_ws_length s) as Hs.
    destruct (skip_ws s) as [| c t]; [reflexivity |]. simpl in Hs.
    destruct (c =? 123)%N.
    { pose proof (skip_ws_length t) as Ht.
      destruct (skip_ws t) as [| d t']; [reflexivity |].
      destruct (d =? 125)%N; [reflexivity | apply IHm; lia]. }
    destruct (c =? 91)%N; [| reflexivity].
    pose proof (skip_ws_length t) as Ht.
    destruct (skip_ws t) as [| d t']; [reflexivity |].
    destruct (d =? 93)%N; [reflexivity | apply IHe; lia].
  - intros [| f2] s acc H1 H2; [lia |]. cbn [elements].
    rewrite (IHv f2 s) by lia.
    destruct (value f2 s) as [[v0 r0] |] eqn:E; [| reflexivity].
    apply (proj1 (value_length f2)) in E. pose proof (skip_ws_length r0) as Hs.
    destruct (skip_ws r0) as [| c t]; [reflexivity |]. simpl in Hs.
    destruct (c =? 44)%N; [apply IHe; lia | reflexivity].
  - intros [| f2] s acc H1 H2; [lia |]. cbn [members].
    pose proof (skip_ws_length s) as Hs.
    destruct (skip_ws s) as [| q t]; [reflexivity |]. simpl in Hs.
    destruct (q =? 34)%N; [| reflexivity].
    destruct (string_body t) as [[k r1] |] eqn:Ek; [| reflexivity].
    apply (string_body_length _ _ _ _ (le_n _)) in Ek.
    pose proof (skip_ws_length r1) as Hs1.
    destruct (skip_ws r1) as [| c r2]; [reflexivity |]. simpl in Hs1.
    destruct (c =? 58)%N; [| reflexivity].
    rewrite (IHv f2 r2) by lia.
    destruct (value f2 r2) as [[v0 r3] |] eqn:E; [| reflexivity].
    apply (proj1 (value_length f2)) in E. pose proof (skip_ws_length r3) as Hs3.
    destruct (skip_ws r3) as [| d r4]; [reflexivity |]. simpl in Hs3.
    destruct (d =? 44)%N; [apply IHm; lia | reflexivity].
Qed.

(** [JSON.parse] never fails for want of fuel: more fuel reads the same. *)
Lemma parse_fuel (text : jsstring) (fuel : nat) :
  (2 * length text + 2 <= fuel)%nat ->
  value fuel text = value (2 * length text + 2) text.
Proof. intros H. apply (proj1 (fuel_irrelevant fuel)); lia. Qed.

End JSON_fuel.

(** ** The stages of the handlers *)

Ltac unfold_monad :=
  unfold bind, try_catch, ret, throw, respond, axios in *.

Lemma is_the_string_spec (v : JSValue) (s : jsstring) :
  is_the_string v s = true <-> v = JStr s.
Proof.
  destruct v; simpl; try (split; [discriminate | intros [=]]).
  rewrite bool_decide_eq_true. split; [intros ->; reflexivity | intros [=]; assumption].
Qed.

(** getSpotifyToken returns a truthy token after its one call, or throws an
    error that carries no response status; it sends no response itself. *)
Lemma getSpotifyToken_cases (cfg : Config) (w : World) (tr : list Call) :
  (exists token, getSpotifyToken cfg w tr = (Normal token, tr ++ [token_call cfg])
                 /\ truthy token = true)
  \/ (exists e tr', getSpotifyToken cfg w tr = (Throw e, tr') /\ response_status e = None).
Proof.
  unfold getSpotifyToken, token_call. unfold_monad.
  destruct (negb _ || negb _).
  - right. eauto.
  - destruct (w tr _) as [data | e].
    + destruct (truthy data) eqn:Hd; simpl.
      * destruct (truthy (get data (str "access_token"))) eqn:Ht; simpl.
        -- left. eauto.
        -- right. eauto.
      * right. eauto.
    + right. eauto.
Qed.

Lemma validate_sections_missing (v : JSValue) (sections : list string) (tr : list Call) :
  is_nullish v = false ->
  validate_sections v sections tr =
    match List.find (fun section => negb (truthy (get v (str section)))) sections with
    | Some section => (Throw (new_Error (str "Missing required section: " ++ str section)), tr)
    | None => (Normal tt, tr)
    end.
Proof.
  intros Hv. induction sections as [| s sections IH]; simpl; [reflexivity |].
  unfold read. rewrite Hv. unfold_monad.
  destruct (truthy (get v (str s))); simpl; [apply IH | reflexivity].
Qed.

Lemma parse_ingredients_spec (req : Request) (tr : list Call) :
  parse_ingredients req tr =
    match ingredients_of req with
    | Some l => (Normal l, tr)
    | None =>
        (Respond {| status := 400;
                    body := obj [prop "error" (JStr (str "Invalid ingredients format"));
                                 prop "details" (JStr (str "Ingredients must be a valid JSON array"))] |},
         tr)
    end.
Proof.
  unfold parse_ingredients, ingredients_of, JSON_parse, parse_value, evaluate. unfold_monad.
  destruct (truthy (param req "ingredients")); [| reflexivity].
  destruct (ToString _) as [text |]; [| reflexivity].
  destruct (JSON.parse _) as [[] |]; reflexivity.
Qed.

Lemma parse_experience_spec (data : JSValue) (tr : list Call) :
  parse_experience data tr =
    if negb (truthy (completion_content data))
    then (Throw (new_Error (str "Invalid response from Groq API")), tr)
    else
      match parse_value (completion_content data) with
      | None => (Throw (new_Error (str "Failed to parse AI response")), tr)
      | Some v =>
          if is_nullish v then (Throw (new_Error (cannot_read v "playlist")), tr)
          else
            match first_missing v with
            | Some section =>
                (Throw (new_Error (str "Missing required section: " ++ str section)), tr)
            | None => (Normal v, tr)
            end
      end.
Proof.
  unfold parse_experience, JSON_parse, parse_value, evaluate. unfold_monad.
  destruct (negb (truthy (completion_content data))); [reflexivity |].
  destruct (ToString _) as [text |]; [| reflexivity].
  destruct (JSON.parse _) as [v |]; [| reflexivity].
  destruct (is_nullish v) eqn:Hv.
  - simpl. unfold read. rewrite Hv. reflexivity.
  - rewrite validate_sections_missing by assumption. unfold first_missing.
    destruct (List.find _ _); reflexivity.
Qed.

Lemma read_spec (v : JSValue) (k : string) (tr : list Call) :
  read v k tr = if is_nullish v then (Throw (new_Error (cannot_read v k)), tr)
                else (Normal (get v (str k)), tr).
Proof. unfold read. destruct (is_nullish v); reflexivity. Qed.

(** "Get Spotify playlist" always completes normally. *)
Lemma enrich_normal (cfg : Config) (w : World) (mood v : JSValue) (tr : list Call) :
  exists v' tr', enrich cfg w mood v tr = (Normal v', tr').
Proof.
  unfold enrich, evaluate. unfold_monad.
  destruct (getSpotifyToken_cases cfg w tr) as [(token & -> & _) | (e & tr' & -> & _)];
    [| eauto].
  destruct (ToString mood); [| eauto]. destruct (bearer token); [| eauto].
  destruct (w _ _) as [data | e]; [| eauto].
  destruct (truthy (first_item data)); [| eauto].
  rewrite read_spec. destruct (is_nullish _); [eauto |].
  unfold assign_playlist. destruct v; cbn; eauto.
Qed.

(** On an object, it leaves the experience alone unless the search gave a
    first item whose [external_urls] can be read. *)
Lemma enrich_object (cfg : Config) (w : World) (mood : JSValue)
    (m : gmap jsstring JSValue) (tr : list Call) :
  fst (enriched cfg w mood (JObj m) tr) =
    match enrichment cfg w mood tr with
    | Match p =>
        if is_nullish (get p (str "external_urls")) then JObj m
        else JObj (<[str "playlist" :=
                       merged_playlist (get (JObj m) (str "playlist"))
                         (get p (str "name")) (get p (str "description"))
                         (get (get p (str "external_urls")) (str "spotify"))
                         (get p (str "images"))]> m)
    | _ => JObj m
    end.
Proof.
  unfold enriched, enrichment, enrichment_search, enrich, evaluate. unfold_monad.
  destruct (getSpotifyToken_cases cfg w tr) as [(token & -> & _) | (e & tr' & -> & _)];
    [| reflexivity].
  destruct (ToString mood); [| reflexivity]. destruct (bearer token); [| reflexivity].
  destruct (w _ _) as [data | e]; [| reflexivity].
  destruct (truthy (first_item data)); [| reflexivity].
  rewrite read_spec. destruct (is_nullish _); reflexivity.
Qed.

Lemma experience_error_spec (e : Error) (tr : list Call) :
  experience_error e tr = (Respond (error_response e), tr).
Proof.
  unfold experience_error, error_response. unfold_monad.
  repeat case_bool_decide; try reflexivity.
  destruct (includes _ _); reflexivity.
Qed.

Lemma validate_mood_spec (req : Request) (tr : list Call) :
  validate_mood (param req "mood") tr =
    if valid_mood req then (Normal tt, tr) else (Respond mood_rejected, tr).
Proof.
  unfold validate_mood, valid_mood.
  destruct (truthy _), (is_string _); reflexivity.
Qed.

(** The whole of /api/experience, stage by stage. *)
Lemma experience_stages (cfg : Config) (w : World) (req : Request) :
  experience cfg w req =
    if valid_mood req then
      match ingredients_of req with
      | None => (ingredients_rejected, [])
      | Some l =>
          match chat_call cfg req l with
          | None => (error_response cannot_convert, [])
          | Some c =>
              match w [] c with
              | Rejected e => (error_response e, [c])
              | Resolved data =>
                  match parse_experience data [c] with
                  | (Normal v, tr) =>
                      ({| status := 200; body := fst (enriched cfg w (param req "mood") v tr) |},
                       snd (enriched cfg w (param req "mood") v tr))
                  | (Throw e, tr) => (error_response e, tr)
                  | (Respond r, tr) => (r, tr)
                  end
              end
          end
      end
    else (mood_rejected, []).
Proof.
  unfold experience, run, experience_handler.
  unfold try_catch at 1. unfold bind at 1.
  rewrite validate_mood_spec. destruct (valid_mood req); [| reflexivity].
  unfold bind at 1. rewrite parse_ingredients_spec.
  destruct (ingredients_of req) as [l |]; [| reflexivity].
  fold (longMode_of req). unfold chat_call.
  unfold bind at 1.
  destruct (chat_request cfg (param req "mood") l (longMode_of req)) as [request |];
    [| cbn [evaluate throw]; rewrite experience_error_spec; reflexivity].
  cbn [evaluate ret].
  unfold bind at 1. unfold axios. destruct (w [] _) as [data | e]; simpl.
  - unfold bind at 1.
    destruct (parse_experience data _) as [[v | e | r] tr] eqn:Hp.
    + unfold bind at 1. unfold enriched.
      destruct (enrich_normal cfg w (param req "mood") v tr) as (v' & tr' & ->).
      reflexivity.
    + rewrite experience_error_spec. reflexivity.
    + reflexivity.
  - rewrite experience_error_spec. reflexivity.
Qed.

(** The calls issued so far are never forgotten. *)
Lemma getSpotifyToken_trace (cfg : Config) (w : World) (tr : list Call) :
  exists rest, snd (getSpotifyToken cfg w tr) = tr ++ rest.
Proof.
  unfold getSpotifyToken. unfold_monad.
  destruct (_ || _); [exists []; simpl; by rewrite app_nil_r |].
  destruct (w tr _) as [data | e]; [| eauto].
  destruct (_ || _); simpl; eauto.
Qed.

Lemma enriched_trace (cfg : Config) (w : World) (mood v : JSValue) (tr : list Call) :
  exists rest, snd (enriched cfg w mood v tr) = tr ++ rest.
Proof.
  unfold enriched, enrich, evaluate. unfold_monad.
  destruct (getSpotifyToken_trace cfg w tr) as [rest Hrest].
  destruct (getSpotifyToken cfg w tr) as [[token | e | r] tr1]; simpl in Hrest; subst tr1;
    [| eauto | eauto].
  destruct (ToString mood); [| eauto]. destruct (bearer token); [| eauto].
  destruct (w _ _) as [data | e]; [| rewrite <- app_assoc; eauto].
  destruct (truthy (first_item data)); [| rewrite <- app_assoc; eauto].
  rewrite read_spec. destruct (is_nullish _); [rewrite <- app_assoc; eauto |].
  unfold assign_playlist. destruct v; cbn; rewrite <- app_assoc; eauto.
Qed.

Lemma parse_experience_trace (data : JSValue) (tr : list Call) :
  snd (parse_experience data tr) = tr.
Proof.
  rewrite parse_experience_spec.
  destruct (negb _); [reflexivity |].
  destruct (parse_value _) as [v |]; [| reflexivity].
  destruct (is_nullish v); [reflexivity |]. destruct (first_missing v); reflexivity.
Qed.

Lemma parse_experience_no_response (data : JSValue) (tr : list Call) (r : Response)
    (tr' : list Call) :
  parse_experience data tr <> (Respond r, tr').
Proof.
  rewrite parse_experience_spec.
  destruct (negb _); [discriminate |].
  destruct (parse_value _) as [v |]; [| discriminate].
  destruct (is_nullish v); [discriminate |]. destruct (first_missing v); discriminate.
Qed.

(** The first call of a request that passes both validations is the
    completion call, built from its mood, its ingredients and its mode. *)
Lemma experience_first_call (cfg : Config) (w : World) (req : Request) (l : list JSValue)
    (c : Call) :
  valid_mood req = true -> ingredients_of req = Some l -> chat_call cfg req l = Some c ->
  exists rest, snd (experience cfg w req) = c :: rest.
Proof.
  intros Hm Hi Hc. rewrite experience_stages, Hm, Hi, Hc.
  destruct (w [] _) as [data | e]; [| eauto].
  pose proof (parse_experience_trace data [c]) as Htr.
  destruct (parse_experience data _) as [[v | e | r] tr]; simpl in Htr; subst tr; eauto.
  destruct (enriched_trace cfg w (param req "mood") v [c]) as [rest ->].
  simpl. eauto.
Qed.

(** A valid mood is a string. *)
Lemma valid_mood_string (req : Request) :
  valid_mood req = true -> exists s, param req "mood" = JStr s /\ s <> [].
Proof.
  unfold valid_mood. destruct (param req "mood") as [| | | | s | |]; simpl;
    try discriminate; try (rewrite andb_false_r; discriminate).
  rewrite andb_true_r. intros H. exists s. split; [reflexivity |].
  intros ->. discriminate.
Qed.

(** The completion request is built whenever the ingredients can be joined;
    its budget and its instructions follow the mode, its user message quotes
    the mood and lists the ingredients. *)
Lemma chat_request_built (cfg : Config) (req : Request) (l : list JSValue)
    (text : jsstring) (longMode : bool) :
  valid_mood req = true -> join l (str ", ") = Some text ->
  exists r s, chat_request cfg (param req "mood") l longMode = Some r
    /\ param req "mood" = JStr s
    /\ max_tokens r = (if longMode then 3000 else 2000)
    /\ system_content r = system_prompt longMode
    /\ user_content r
       = str "Generate a vibe card for mood: " ++ [34%N] ++ s ++ [34%N]
         ++ (if bool_decide (l = []) then [] else str " with ingredients: " ++ text).
Proof.
  intros Hm Hj. destruct (valid_mood_string req Hm) as (s & Hs & _).
  unfold chat_request, with_ingredients. rewrite Hs, Hj. cbn [ToString].
  case_bool_decide; do 2 eexists; repeat split; reflexivity.
Qed.

(** When joining the ingredients throws, the request is answered 500 and no
    call is made. *)
Lemma chat_request_fails (cfg : Config) (w : World) (req : Request) (l : list JSValue) :
  valid_mood req = true -> ingredients_of req = Some l -> chat_call cfg req l = None ->
  experience cfg w req = (failure (message cannot_convert), []).
Proof. intros Hm Hi Hc. rewrite experience_stages, Hm, Hi, Hc. reflexivity. Qed.

Lemma error_response_status (e : Error) :
  status (error_response e) =
    if bool_decide (response_status e = Some 401) then 401
    else if bool_decide (response_status e = Some 429) then 429
    else 500.
Proof.
  unfold error_response. repeat case_bool_decide; try reflexivity.
  destruct (includes _ _); reflexivity.
Qed.

Lemma error_response_not_400 (e : Error) : status (error_response e) <> 400.
Proof. rewrite error_response_status. repeat case_bool_decide; discriminate. Qed.

(** ** Validation of the mood *)

(** C3 (as amended).  A request to /api/experience whose mood is absent, is
    the empty string or is not a string is answered 400 before any outbound
    call is issued.  (A mood of white space only is a non-empty string and
    passes this validation.) *)
Theorem experience_rejects_missing_mood (cfg : Config) (w : World) (req : Request) :
  param req "mood" = JUndefined \/ param req "mood" = JStr [] \/ is_string (param req "mood") = false ->
  status (fst (experience cfg w req)) = 400 /\ snd (experience cfg w req) = [].
Proof.
  intros H. rewrite experience_stages.
  assert (valid_mood req = false) as ->; [| split; reflexivity].
  unfold valid_mood. destruct H as [-> | [-> | ->]]; [reflexivity | reflexivity |].
  apply andb_false_r.
Qed.

Lemma experience_rejects_missing_mood_witness :
  param (Sample.request [(str "longMode", JStr (str "true"))]) "mood" = JUndefined
  /\ status (fst (experience Sample.cfg Sample.all_up
                    (Sample.request [(str "longMode", JStr (str "true"))]))) = 400
  /\ snd (experience Sample.cfg Sample.all_up
            (Sample.request [(str "longMode", JStr (str "true"))])) = [].
Proof.
  split; [reflexivity |].
  apply (experience_rejects_missing_mood Sample.cfg Sample.all_up
           (Sample.request [(str "longMode", JStr (str "true"))])).
  left. reflexivity.
Defined.

(** C3 as stated fails: a mood of one space is white space only, yet the
    request is answered 200 after three outbound calls. *)
Lemma whitespace_mood_is_accepted :
  whitespace_only (param (Sample.request [(str "mood", JStr (str " "))]) "mood") = true
  /\ status (fst (experience Sample.cfg Sample.all_up
                    (Sample.request [(str "mood", JStr (str " "))]))) = 200
  /\ length (snd (experience Sample.cfg Sample.all_up
                    (Sample.request [(str "mood", JStr (str " "))]))) = 3%nat.
Proof. vm_compute. repeat split; reflexivity. Qed.

(** ** Validation of the ingredients *)

Lemma experience_status_400 (cfg : Config) (w : World) (req : Request) :
  status (fst (experience cfg w req)) = 400 <->
  valid_mood req = false \/ ingredients_of req = None.
Proof.
  rewrite experience_stages.
  destruct (valid_mood req); [| simpl; tauto].
  destruct (ingredients_of req) as [l |]; [| simpl; tauto].
  assert (forall r : Response * list Call, status (fst r) <> 400 ->
            status (fst r) = 400 <-> (true = false \/ Some l = None)) as Hno.
  { intros r Hr. split; [tauto | intros [[=] | [=]]]. }
  destruct (chat_call cfg req l) as [c |]; [| apply Hno, error_response_not_400].
  destruct (w [] _) as [data | e]; [| apply Hno, error_response_not_400].
  destruct (parse_experience data _) as [[v | e | r] tr] eqn:Hp.
  - apply Hno. discriminate.
  - apply Hno, error_response_not_400.
  - exfalso. exact (parse_experience_no_response _ _ _ _ Hp).
Qed.

(** C7 (as amended).  When the ingredients parameter is truthy (present and
    not the empty string) and does not parse as a JSON array, the request is
    answered 400 without any outbound call, with the ingredients message if
    the mood is valid (with the mood message otherwise).  When the parameter
    is absent or is the empty string, a request with a valid mood goes on to
    the completion call with an empty ingredient list. *)
Theorem experience_rejects_bad_ingredients (cfg : Config) (w : World) (req : Request) :
  (truthy (param req "ingredients") = true ->
   (forall l, parse_value (param req "ingredients") <> Some (JArr l)) ->
   status (fst (experience cfg w req)) = 400
   /\ snd (experience cfg w req) = []
   /\ (valid_mood req = true -> fst (experience cfg w req) = ingredients_rejected))
  /\ (truthy (param req "ingredients") = false ->
      valid_mood req = true ->
      exists r rest,
        chat_request cfg (param req "mood") [] (longMode_of req) = Some r
        /\ snd (experience cfg w req) = PostChat r :: rest).
Proof.
  split.
  - intros Ht Hp.
    assert (ingredients_of req = None) as Hi.
    { unfold ingredients_of. rewrite Ht.
      destruct (parse_value _) as [[] |]; try reflexivity. exfalso. by eapply Hp. }
    rewrite experience_stages, Hi. destruct (valid_mood req); repeat split; try reflexivity.
    discriminate.
  - intros Ht Hm.
    destruct (chat_request_built cfg req [] [] (longMode_of req) Hm eq_refl)
      as (r & s & Hr & _).
    exists r. 
    destruct (experience_first_call cfg w req [] (PostChat r) Hm) as [rest Hrest].
    + unfold ingredients_of. rewrite Ht. reflexivity.
    + unfold chat_call. rewrite Hr. reflexivity.
    + eauto.
Qed.

Lemma experience_rejects_bad_ingredients_witness :
  (status (fst (experience Sample.cfg Sample.all_up
                  (Sample.request [(str "mood", JStr (str "sad"));
                                   (str "ingredients", JStr (str "{}"))]))) = 400
   /\ snd (experience Sample.cfg Sample.all_up
             (Sample.request [(str "mood", JStr (str "sad"));
                              (str "ingredients", JStr (str "{}"))])) = []
   /\ (valid_mood (Sample.request [(str "mood", JStr (str "sad"));
                                   (str "ingredients", JStr (str "{}"))]) = true ->
       fst (experience Sample.cfg Sample.all_up
              (Sample.request [(str "mood", JStr (str "sad"));
                               (str "ingredients", JStr (str "{}"))])) = ingredients_rejected))
  /\ (exists r rest,
        chat_request Sample.cfg
          (param (Sample.request [(str "mood", JStr (str "sad"))]) "mood") []
          (longMode_of (Sample.request [(str "mood", JStr (str "sad"))])) = Some r
        /\ snd (experience Sample.cfg Sample.all_up (Sample.request [(str "mood", JStr (str "sad"))]))
           = PostChat r :: rest).
Proof.
  split.
  - apply (proj1 (experience_rejects_bad_ingredients Sample.cfg Sample.all_up
                    (Sample.request [(str "mood", JStr (str "sad"));
                                     (str "ingredients", JStr (str "{}"))]))).
    + reflexivity.
    + intros l. vm_compute. discriminate.
  - apply (proj2 (experience_rejects_bad_ingredients Sample.cfg Sample.all_up
                    (Sample.request [(str "mood", JStr (str "sad"))]))); reflexivity.
Defined.

(** C7 as stated fails: an ingredients parameter that is present and not a
    parseable JSON array (the empty string of [?ingredients=]) is not
    rejected; the request is answered 200 after three outbound calls. *)
Lemma empty_ingredients_are_accepted :
  query (Sample.request [(str "mood", JStr (str "sad")); (str "ingredients", JStr [])])
    !! str "ingredients" = Some (JStr [])
  /\ JSON.parse [] = None
  /\ status (fst (experience Sample.cfg Sample.all_up
                    (Sample.request [(str "mood", JStr (str "sad"));
                                     (str "ingredients", JStr [])]))) = 200
  /\ length (snd (experience Sample.cfg Sample.all_up
                    (Sample.request [(str "mood", JStr (str "sad"));
                                     (str "ingredients", JStr [])]))) = 3%nat.
Proof. vm_compute. repeat split; reflexivity. Qed.

(** ** The verbosity mode *)

Lemma long_and_short_prompts_differ : system_prompt true <> system_prompt false.
Proof.
  intros H. apply (f_equal (@length N)) in H. vm_compute in H. discriminate.
Qed.

(** C9.  For one and the same mood, a request in long mode and a request in
    short mode send the completion provider requests with different token
    budgets, 3000 in long mode and 2000 in short mode, and with different
    system instructions; with the same ingredients their user messages are
    the same.  The two requests are ones that reach the completion call: the
    mood is valid, the ingredients parse to lists and joining each list does
    not throw (no ingredient is an object with a toString key of its own). *)
Theorem long_and_short_requests_differ (cfg : Config) (w w' : World)
    (req req' : Request) (l l' : list JSValue) (text text' : jsstring) :
  param req "mood" = param req' "mood" ->
  valid_mood req = true ->
  ingredients_of req = Some l -> ingredients_of req' = Some l' ->
  join l (str ", ") = Some text -> join l' (str ", ") = Some text' ->
  param req "longMode" = JStr (str "true") ->
  param req' "longMode" <> JStr (str "true") ->
  exists r r' rest rest',
    snd (experience cfg w req) = PostChat r :: rest
    /\ snd (experience cfg w' req') = PostChat r' :: rest'
    /\ max_tokens r = 3000 /\ max_tokens r' = 2000
    /\ max_tokens r' < max_tokens r
    /\ system_content r <> system_content r'
    /\ (l = l' -> user_content r = user_content r').
Proof.
  intros Hmood Hm Hi Hi' Hj Hj' Hl Hl'.
  assert (valid_mood req' = true) as Hm' by (unfold valid_mood in *; by rewrite <- Hmood).
  assert (longMode_of req = true) as El by (by apply is_the_string_spec).
  assert (longMode_of req' = false) as El'.
  { destruct (longMode_of req') eqn:E; [| reflexivity].
    exfalso. apply Hl'. by apply is_the_string_spec. }
  destruct (chat_request_built cfg req l text true Hm Hj) as (r & s & Hr & Hs & Ht & Hp & Hu).
  destruct (chat_request_built cfg req' l' text' false Hm' Hj')
    as (r' & s' & Hr' & Hs' & Ht' & Hp' & Hu').
  destruct (experience_first_call cfg w req l (PostChat r) Hm Hi) as [rest Hrest].
  { unfold chat_call. by rewrite El, Hr. }
  destruct (experience_first_call cfg w' req' l' (PostChat r') Hm' Hi') as [rest' Hrest'].
  { unfold chat_call. by rewrite El', Hr'. }
  exists r, r', rest, rest'. rewrite Ht, Ht', Hp, Hp'.
  repeat split; try assumption; try reflexivity.
  - apply long_and_short_prompts_differ.
  - intros <-. rewrite Hu, Hu'. rewrite Hmood, Hs' in Hs. injection Hs as ->.
    rewrite Hj in Hj'. injection Hj' as ->. reflexivity.
Qed.

Lemma long_and_short_requests_differ_witness :
  exists r r' rest rest',
    snd (experience Sample.cfg Sample.all_up
           (Sample.request [(str "mood", JStr (str "calm")); (str "longMode", JStr (str "true"))]))
      = PostChat r :: rest
    /\ snd (experience Sample.cfg Sample.all_up
              (Sample.request [(str "mood", JStr (str "calm")); (str "longMode", JStr (str "false"))]))
         = PostChat r' :: rest'
    /\ max_tokens r = 3000 /\ max_tokens r' = 2000
    /\ max_tokens r' < max_tokens r
    /\ system_content r <> system_content r'
    /\ (@nil JSValue = [] -> user_content r = user_content r').
Proof.
  apply (long_and_short_requests_differ Sample.cfg Sample.all_up Sample.all_up
           (Sample.request [(str "mood", JStr (str "calm")); (str "longMode", JStr (str "true"))])
           (Sample.request [(str "mood", JStr (str "calm")); (str "longMode", JStr (str "false"))])
           [] [] [] []); try reflexivity.
  vm_compute. discriminate.
Defined.

(** C10.  Long mode is engaged exactly when the longMode parameter is the
    string 'true': the completion request of a request that reaches the
    completion call (it passes the two validations and joining its
    ingredients does not throw) carries the long instructions and 3000
    tokens in that case, the short instructions and 2000 tokens in every
    other.  Whether the request is answered 400 depends on the mood and the
    ingredients alone. *)
Theorem long_mode_only_for_true (cfg : Config) (w : World) (req : Request) :
  (status (fst (experience cfg w req)) = 400 <->
   valid_mood req = false \/ ingredients_of req = None)
  /\ forall l text,
       valid_mood req = true -> ingredients_of req = Some l ->
       join l (str ", ") = Some text ->
       exists r rest,
         snd (experience cfg w req) = PostChat r :: rest
         /\ (param req "longMode" = JStr (str "true") ->
             max_tokens r = 3000 /\ system_content r = system_prompt true)
         /\ (param req "longMode" <> JStr (str "true") ->
             max_tokens r = 2000 /\ system_content r = system_prompt false).
Proof.
  split; [apply experience_status_400 |].
  intros l text Hm Hi Hj.
  destruct (chat_request_built cfg req l text (longMode_of req) Hm Hj)
    as (r & s & Hr & _ & Ht & Hp & _).
  destruct (experience_first_call cfg w req l (PostChat r) Hm Hi) as [rest Hrest].
  { unfold chat_call. by rewrite Hr. }
  exists r, rest. split; [exact Hrest |]. rewrite Ht, Hp.
  split; intros H.
  - apply is_the_string_spec in H. fold (longMode_of req) in H. rewrite H. split; reflexivity.
  - destruct (longMode_of req) eqn:E; [| split; reflexivity].
    exfalso. apply H. by apply is_the_string_spec.
Qed.

Lemma long_mode_only_for_true_witness :
  exists r rest,
    snd (experience Sample.cfg Sample.all_up
           (Sample.request [(str "mood", JStr (str "calm")); (str "longMode", JStr (str "True"))]))
      = PostChat r :: rest
    /\ (param (Sample.request [(str "mood", JStr (str "calm")); (str "longMode", JStr (str "True"))])
          "longMode" = JStr (str "true") ->
        max_tokens r = 3000 /\ system_content r = system_prompt true)
    /\ (param (Sample.request [(str "mood", JStr (str "calm")); (str "longMode", JStr (str "True"))])
          "longMode" <> JStr (str "true") ->
        max_tokens r = 2000 /\ system_content r = system_prompt false).
Proof.
  apply (proj2 (long_mode_only_for_true Sample.cfg Sample.all_up
                  (Sample.request [(str "mood", JStr (str "calm"));
                                   (str "longMode", JStr (str "True"))])) [] []);
    reflexivity.
Defined.

(** ** Generation, parsing and the seven sections *)

Lemma first_missing_in (v : JSValue) (section : string) :
  first_missing v = Some section ->
  In section requiredSections /\ truthy (get v (str section)) = false.
Proof.
  intros H. apply List.find_some in H as [Hin Hf].
  split; [assumption |]. by apply negb_true_iff.
Qed.

Lemma first_missing_none (v : JSValue) (section : string) :
  first_missing v = None -> In section requiredSections ->
  truthy (get v (str section)) = true.
Proof.
  intros H Hin. apply (List.find_none _ _ H) in Hin. by apply negb_false_iff.
Qed.

(** None of the messages of the parsing and validation stage mentions Groq,
    so each is reported in the details of the 500 response. *)
Lemma missing_section_response (section : string) :
  In section requiredSections ->
  error_response (new_Error (str "Missing required section: " ++ str section))
  = failure (str "Missing required section: " ++ str section).
Proof.
  intros Hin. simpl in Hin.
  repeat (destruct Hin as [<- | Hin]; [reflexivity |]). destruct Hin.
Qed.

Lemma cannot_read_response (v : JSValue) (k : string) :
  is_nullish v = true -> k = "playlist"%string ->
  error_response (new_Error (cannot_read v k)) = failure (cannot_read v k).
Proof. intros Hv ->. destruct v; try discriminate; reflexivity. Qed.

Lemma unparsable_response :
  error_response (new_Error (str "Failed to parse AI response"))
  = failure (str "Failed to parse AI response").
Proof. reflexivity. Qed.

(** A string or an array has no own property named after a section. *)
Lemma section_is_no_index (section : string) :
  In section requiredSections ->
  bool_decide (str section = str "length") = false /\ index_of_key (str section) = None.
Proof.
  intros Hin. simpl in Hin.
  repeat (destruct Hin as [<- | Hin]; [split; reflexivity |]). destruct Hin.
Qed.

(** Only an object passes the validation of the sections. *)
Lemma validated_is_object (v : JSValue) :
  is_nullish v = false -> first_missing v = None -> exists m, v = JObj m.
Proof.
  intros Hn Hf.
  assert (truthy (get v (str "playlist")) = true) as Ht
    by (apply first_missing_none; [assumption | left; reflexivity]).
  destruct (section_is_no_index "playlist") as [Hl Hi]; [left; reflexivity |].
  destruct v; try discriminate; eauto; unfold get in Ht; rewrite Hl, Hi in Ht; discriminate.
Qed.

(** The enrichment keeps every section truthy. *)
Lemma enriched_sections (cfg : Config) (w : World) (mood : JSValue)
    (m : gmap jsstring JSValue) (tr : list Call) (section : string) :
  truthy (get (JObj m) (str section)) = true ->
  truthy (get (fst (enriched cfg w mood (JObj m) tr)) (str section)) = true.
Proof.
  intros Ht. rewrite enrich_object.
  destruct (enrichment cfg w mood tr) as [| | | p]; try assumption.
  destruct (is_nullish _); [assumption |].
  unfold get at 1. rewrite lookup_insert. case_decide; [reflexivity | exact Ht].
Qed.

(** C1 (as amended).  When the completion provider has returned a content,
    the request fails with status 500 exactly when JSON.parse rejects the
    content (details: Failed to parse AI response), or the parsed value is
    null (details: the TypeError of reading its first section), or one of
    the seven sections is absent from the parsed value or has a falsy value
    there (details: Missing required section, with the first such section in
    the fixed order).  The messages tell the cases apart.  Otherwise the
    response is 200 and carries all seven sections. *)
Theorem generation_failures (cfg : Config) (w : World) (req : Request)
    (l : list JSValue) (c : Call) (data : JSValue) :
  valid_mood req = true -> ingredients_of req = Some l ->
  chat_call cfg req l = Some c -> w [] c = Resolved data ->
  truthy (completion_content data) = true ->
  match parse_value (completion_content data) with
  | None => fst (experience cfg w req) = failure (str "Failed to parse AI response")
  | Some v =>
      if is_nullish v
      then fst (experience cfg w req) = failure (cannot_read v "playlist")
      else
        match first_missing v with
        | Some section =>
            fst (experience cfg w req)
            = failure (str "Missing required section: " ++ str section)
            /\ str "Missing required section: " ++ str section
               <> str "Failed to parse AI response"
        | None =>
            status (fst (experience cfg w req)) = 200
            /\ forall section, In section requiredSections ->
                 truthy (get (body (fst (experience cfg w req))) (str section)) = true
        end
  end
  /\ (status (fst (experience cfg w req)) = 500 <->
      match parse_value (completion_content data) with
      | None => True
      | Some v => is_nullish v = true \/ first_missing v <> None
      end).
Proof.
  intros Hm Hi Hcall Hw Hc.
  rewrite experience_stages, Hm, Hi, Hcall, Hw, parse_experience_spec, Hc.
  cbn [negb]. destruct (parse_value _) as [v |]; [| split; [reflexivity | cbn; tauto]].
  destruct (is_nullish v) eqn:Hn.
  { rewrite cannot_read_response by done. split; [reflexivity | cbn; tauto]. }
  destruct (first_missing v) as [section |] eqn:Hf.
  - destruct (first_missing_in v section Hf) as [Hin _].
    rewrite missing_section_response by assumption.
    split; [split; [reflexivity |] | cbn; split; [right; discriminate | reflexivity]].
    intros H. apply (f_equal (take 8)) in H. discriminate.
  - destruct (validated_is_object v Hn Hf) as [m ->].
    split; [split; [reflexivity |] | cbn; split; [discriminate | intros [[=] | []]; reflexivity]].
    intros section Hin. cbn [fst body].
    apply enriched_sections. by apply first_missing_none.
Qed.

Lemma generation_failures_witness :
  valid_mood Sample.rainy = true
  /\ (status (fst (experience Sample.cfg Sample.all_up Sample.rainy)) = 200
      /\ forall section, In section requiredSections ->
           truthy (get (body (fst (experience Sample.cfg Sample.all_up Sample.rainy)))
                       (str section)) = true).
Proof.
  split; [reflexivity |].
  exact (proj1 (generation_failures Sample.cfg Sample.all_up Sample.rainy [] _
                  (Sample.completion (JStr Sample.experience_text))
                  eq_refl eq_refl eq_refl eq_refl eq_refl)).
Defined.

(** C1 as stated fails: the content below parses as one JSON object that has
    all seven keys, and the request fails with status 500 all the same,
    because the value of the playlist key is null. *)
Lemma null_section_fails :
  match JSON.parse Sample.null_playlist_text with
  | Some (JObj m) =>
      forallb (fun section => bool_decide (is_Some (m !! str section))) requiredSections = true
  | _ => False
  end
  /\ fst (experience Sample.cfg (Sample.completion_returns Sample.null_playlist_text) Sample.rainy)
     = failure (str "Missing required section: playlist").
Proof. vm_compute. split; reflexivity. Qed.

(** ** The catalog enrichment *)

(** C2.  Once the completion output has passed parsing and the validation of
    the sections, the response is 200 whatever the catalog does; when the
    token cannot be acquired, the search call fails or the search has no
    first item, the body is the parsed completion output itself, and so is
    its playlist section. *)
Theorem enrichment_failure_is_swallowed (cfg : Config) (w : World) (req : Request)
    (l : list JSValue) (c : Call) (data v : JSValue) :
  valid_mood req = true -> ingredients_of req = Some l ->
  chat_call cfg req l = Some c -> w [] c = Resolved data ->
  truthy (completion_content data) = true ->
  parse_value (completion_content data) = Some v ->
  is_nullish v = false -> first_missing v = None ->
  status (fst (experience cfg w req)) = 200
  /\ ((forall p, enrichment cfg w (param req "mood") [c] <> Match p) ->
      body (fst (experience cfg w req)) = v
      /\ get (body (fst (experience cfg w req))) (str "playlist") = get v (str "playlist")).
Proof.
  intros Hm Hi Hcall Hw Hc Hp Hn Hf.
  rewrite experience_stages, Hm, Hi, Hcall, Hw, parse_experience_spec, Hc, Hp, Hn, Hf.
  cbn [negb fst body status]. split; [reflexivity |].
  intros Hno. destruct (validated_is_object v Hn Hf) as [m ->].
  rewrite enrich_object.
  destruct (enrichment _ _ _ _) as [| | | p] eqn:He; try (split; reflexivity).
  exfalso. by apply (Hno p).
Qed.

Lemma enrichment_failure_is_swallowed_witness :
  (exists c, chat_call Sample.cfg Sample.rainy [] = Some c
             /\ enrichment Sample.cfg Sample.catalog_unauthorized (param Sample.rainy "mood") [c]
                = TokenFailed)
  /\ status (fst (experience Sample.cfg Sample.catalog_unauthorized Sample.rainy)) = 200
  /\ JSON.parse Sample.experience_text
     = Some (body (fst (experience Sample.cfg Sample.catalog_unauthorized Sample.rainy))).
Proof.
  split; [eexists; split; reflexivity |].
  destruct (JSON.parse Sample.experience_text) as [v |] eqn:Hv; [| vm_compute in Hv; discriminate].
  destruct (enrichment_failure_is_swallowed Sample.cfg Sample.catalog_unauthorized Sample.rainy
              [] _ (Sample.completion (JStr Sample.experience_text)) v eq_refl eq_refl eq_refl)
    as [Hs Hb]; try reflexivity; try assumption.
  - rewrite <- (f_equal (fun o => match o with Some x => is_nullish x | None => false end) Hv).
    reflexivity.
  - rewrite <- (f_equal (fun o => match o with Some x => first_missing x | None => None end) Hv).
    reflexivity.
  - split; [assumption |]. f_equal. symmetry. apply Hb. intros p. discriminate.
Defined.

(** C5 (as amended).  When the search of the enrichment gives a first item
    whose [external_urls] is neither absent nor null, the playlist section
    of the response has the name, the description and the images of that
    item and its [external_urls.spotify] as url; every other property of the
    section is the one of the generated section, and the six other sections
    are the generated ones. *)
Theorem enrichment_overrides_four_fields (cfg : Config) (w : World) (req : Request)
    (l : list JSValue) (c : Call) (data v p : JSValue) :
  valid_mood req = true -> ingredients_of req = Some l ->
  chat_call cfg req l = Some c -> w [] c = Resolved data ->
  truthy (completion_content data) = true ->
  parse_value (completion_content data) = Some v ->
  is_nullish v = false -> first_missing v = None ->
  enrichment cfg w (param req "mood") [c] = Match p ->
  is_nullish (get p (str "external_urls")) = false ->
  exists section : gmap jsstring JSValue,
    get (body (fst (experience cfg w req))) (str "playlist") = JObj section
    /\ section !! str "name" = Some (get p (str "name"))
    /\ section !! str "description" = Some (get p (str "description"))
    /\ section !! str "url" = Some (get (get p (str "external_urls")) (str "spotify"))
    /\ section !! str "images" = Some (get p (str "images"))
    /\ (forall k, k <> str "name" -> k <> str "description" -> k <> str "url" ->
                  k <> str "images" ->
                  section !! k = spread (get v (str "playlist")) !! k)
    /\ (forall k, k <> str "playlist" ->
                  get (body (fst (experience cfg w req))) k = get v k).
Proof.
  intros Hm Hi Hcall Hw Hc Hp Hn Hf He Hu.
  rewrite experience_stages, Hm, Hi, Hcall, Hw, parse_experience_spec, Hc, Hp, Hn, Hf.
  cbn [negb fst body status]. destruct (validated_is_object v Hn Hf) as [m ->].
  rewrite enrich_object, He, Hu. unfold merged_playlist.
  eexists. split; [unfold get at 1; rewrite lookup_insert_eq; reflexivity |].
  repeat split.
  - rewrite lookup_insert_ne by done. rewrite lookup_insert_ne by done.
    rewrite lookup_insert_ne by done. apply lookup_insert_eq.
  - rewrite lookup_insert_ne by done. rewrite lookup_insert_ne by done.
    apply lookup_insert_eq.
  - rewrite lookup_insert_ne by done. apply lookup_insert_eq.
  - apply lookup_insert_eq.
  - intros k H1 H2 H3 H4. by rewrite !lookup_insert_ne.
  - intros k Hk. unfold get. by rewrite lookup_insert_ne.
Qed.

Lemma enrichment_overrides_four_fields_witness :
  (exists c, chat_call Sample.cfg Sample.rainy [] = Some c
             /\ enrichment Sample.cfg Sample.all_up (param Sample.rainy "mood") [c]
                = Match Sample.catalog_playlist)
  /\ exists section : gmap jsstring JSValue,
       get (body (fst (experience Sample.cfg Sample.all_up Sample.rainy))) (str "playlist")
       = JObj section
       /\ section !! str "name" = Some (JStr (str "Rainy Day"))
       /\ section !! str "genre" = Some (JStr (str "pop")).
Proof.
  split; [eexists; split; reflexivity |].
  destruct (JSON.parse Sample.experience_text) as [v |] eqn:Hv; [| vm_compute in Hv; discriminate].
  destruct (enrichment_overrides_four_fields Sample.cfg Sample.all_up Sample.rainy
              [] _ (Sample.completion (JStr Sample.experience_text)) v Sample.catalog_playlist
              eq_refl eq_refl eq_refl)
    as (section & Hs & Hname & _ & _ & _ & Hother & _); try reflexivity; try assumption.
  - rewrite <- (f_equal (fun o => match o with Some x => is_nullish x | None => false end) Hv).
    reflexivity.
  - rewrite <- (f_equal (fun o => match o with Some x => first_missing x | None => None end) Hv).
    reflexivity.
  - exists section. split; [assumption |]. split; [assumption |].
    rewrite Hother by done.
    rewrite <- (f_equal (fun o => match o with
                                  | Some x => spread (get x (str "playlist")) !! str "genre"
                                  | None => Some (JStr (str "pop"))
                                  end) Hv).
    reflexivity.
Defined.

(** C5 as stated fails: the search returns a first item, named Rainy Day,
    that has no [external_urls]; reading its url throws, the error is
    swallowed and the playlist section keeps the generated name. *)
Lemma match_without_urls_is_dropped :
  (exists c, chat_call Sample.cfg Sample.rainy [] = Some c
             /\ enrichment Sample.cfg Sample.bare_match (param Sample.rainy "mood") [c]
                = Match Sample.bare_playlist)
  /\ get Sample.bare_playlist (str "name") = JStr (str "Rainy Day")
  /\ status (fst (experience Sample.cfg Sample.bare_match Sample.rainy)) = 200
  /\ get (get (body (fst (experience Sample.cfg Sample.bare_match Sample.rainy)))
              (str "playlist")) (str "name") = JStr (str "Made up").
Proof.
  split; [eexists; split; reflexivity |]. vm_compute. repeat split; reflexivity.
Qed.

(** C8 (as amended).  On /api/experience, a failure of the completion call
    decides the status: 401 when the provider answered 401, 429 when it
    answered 429, 500 for every other failure, a response without content
    included; the completion call is then the only outbound call. *)
Theorem completion_failure_status (cfg : Config) (w : World) (req : Request)
    (l : list JSValue) (c : Call) :
  valid_mood req = true -> ingredients_of req = Some l ->
  chat_call cfg req l = Some c ->
  (forall e, w [] c = Rejected e ->
     snd (experience cfg w req) = [c]
     /\ (response_status e = Some 401 -> status (fst (experience cfg w req)) = 401)
     /\ (response_status e = Some 429 -> status (fst (experience cfg w req)) = 429)
     /\ (response_status e <> Some 401 -> response_status e <> Some 429 ->
         status (fst (experience cfg w req)) = 500))
  /\ (forall data, w [] c = Resolved data ->
        truthy (completion_content data) = false ->
        snd (experience cfg w req) = [c]
        /\ status (fst (experience cfg w req)) = 500).
Proof.
  intros Hm Hi Hcall. split.
  - intros e Hw. rewrite experience_stages, Hm, Hi, Hcall, Hw. cbn [fst snd].
    rewrite error_response_status. split; [reflexivity |].
    repeat split; intros; repeat case_bool_decide; congruence.
  - intros data Hw Hc.
    rewrite experience_stages, Hm, Hi, Hcall, Hw, parse_experience_spec, Hc.
    split; reflexivity.
Qed.

Lemma completion_failure_status_witness :
  status (fst (experience Sample.cfg (Sample.completion_rejects 401) Sample.rainy)) = 401
  /\ status (fst (experience Sample.cfg (Sample.completion_rejects 429) Sample.rainy)) = 429
  /\ status (fst (experience Sample.cfg (Sample.completion_rejects 503) Sample.rainy)) = 500.
Proof.
  split; [| split].
  - apply (proj1 (completion_failure_status Sample.cfg (Sample.completion_rejects 401)
                    Sample.rainy [] _ eq_refl eq_refl eq_refl) _ eq_refl); reflexivity.
  - apply (proj1 (completion_failure_status Sample.cfg (Sample.completion_rejects 429)
                    Sample.rainy [] _ eq_refl eq_refl eq_refl) _ eq_refl); reflexivity.
  - apply (proj1 (completion_failure_status Sample.cfg (Sample.completion_rejects 503)
                    Sample.rainy [] _ eq_refl eq_refl eq_refl) _ eq_refl); discriminate.
Defined.

(** C8 as stated fails: the catalog provider rejects the credentials with
    status 401 during a request to /api/experience, and the response is 200. *)
Lemma catalog_rejection_is_not_surfaced :
  (exists c, chat_call Sample.cfg Sample.rainy [] = Some c
             /\ Sample.catalog_unauthorized [c] (token_call Sample.cfg)
                = Rejected {| message := str "Request failed with status code 401";
                              response_status := Some 401 |})
  /\ In (token_call Sample.cfg)
        (snd (experience Sample.cfg Sample.catalog_unauthorized Sample.rainy))
  /\ status (fst (experience Sample.cfg Sample.catalog_unauthorized Sample.rainy)) = 200.
Proof.
  split; [eexists; split; reflexivity |].
  vm_compute. repeat split; try reflexivity. right. left. reflexivity.
Qed.

(** ** The normalized mood of /api/playlist *)


Lemma trim_start_drop (s : jsstring) : exists j, trim_start s = drop j s.
Proof.
  induction s as [| c s [j IH]]; [by exists 0%nat |]. simpl.
  destruct (is_space c); [exists (S j); exact IH | by exists 0%nat].
Qed.

Lemma trim_start_head (s : jsstring) (c : N) :
  head (trim_start s) = Some c -> is_space c = false.
Proof.
  induction s as [| d s IH]; [discriminate |]. simpl.
  destruct (is_space d) eqn:E; [exact IH | intros [= <-]; exact E].
Qed.

Lemma trim_start_id (s : jsstring) :
  (forall c, head s = Some c -> is_space c = false) -> trim_start s = s.
Proof.
  destruct s as [| c s]; [reflexivity |]. intros H. simpl.
  by rewrite (H c eq_refl).
Qed.

Lemma last_rev (s : jsstring) : last (rev s) = head s.
Proof. destruct s as [| c s]; [reflexivity |]. simpl. apply last_snoc. Qed.

Lemma head_rev (s : jsstring) : head (rev s) = last s.
Proof. rewrite <- (rev_involutive s) at 2. symmetry. apply last_rev. Qed.

Lemma last_drop (s : jsstring) (j : nat) (c : N) :
  last (drop j s) = Some c -> last s = Some c.
Proof.
  revert j. induction s as [| d s IH]; intros [| j]; simpl; try done.
  intros H. specialize (IH j H). destruct s; [by destruct j | exact IH].
Qed.

Lemma trim_take_drop (s : jsstring) : exists j k, trim s = take k (drop j s).
Proof.
  unfold trim. destruct (trim_start_drop s) as [j ->].
  destruct (trim_start_drop (rev (drop j s))) as [i ->].
  exists j, (length (drop j s) - i)%nat.
  by rewrite skipn_rev, rev_involutive.
Qed.

Lemma trim_head (s : jsstring) (c : N) : head (trim s) = Some c -> is_space c = false.
Proof.
  unfold trim. rewrite head_rev.
  destruct (trim_start_drop (rev (trim_start s))) as [i ->].
  intros H. apply last_drop in H. rewrite last_rev in H. by apply trim_start_head in H.
Qed.

Lemma trim_last (s : jsstring) (c : N) : last (trim s) = Some c -> is_space c = false.
Proof. unfold trim. rewrite last_rev. apply trim_start_head. Qed.

Lemma lower_is_no_space (c : N) : is_lower c = true -> is_space c = false /\ c <> 32%N.
Proof.
  unfold is_lower. intros H. apply andb_true_iff in H as [H1 H2].
  apply N.leb_le in H1, H2.
  assert (In c (map N.of_nat (seq 97 26))) as Hin.
  { apply in_map_iff. exists (N.to_nat c). split; [lia | apply in_seq; lia]. }
  simpl in Hin. repeat (destruct Hin as [<- | Hin]; [split; [reflexivity | discriminate] |]).
  destruct Hin.
Qed.

Lemma lower_letters_chars (s : jsstring) (c : N) :
  In c (flat_map lower_letters s) -> is_lower c = true \/ is_space c = true.
Proof.
  rewrite in_flat_map. intros (d & _ & Hc). unfold lower_letters in Hc.
  destruct ((65 <=? d) && (d <=? 90))%N eqn:E1.
  { destruct Hc as [<- | []]. left. apply andb_true_iff in E1 as [H1 H2].
    apply N.leb_le in H1, H2. unfold is_lower. apply andb_true_iff.
    split; apply N.leb_le; lia. }
  destruct (((97 <=? d) && (d <=? 122))%N || is_space d) eqn:E2.
  { destruct Hc as [<- | []]. apply orb_true_iff in E2. exact E2. }
  destruct (d =? 304)%N; [destruct Hc as [<- | []]; by left |].
  destruct (d =? 8490)%N; [destruct Hc as [<- | []]; by left | destruct Hc].
Qed.


Lemma collapse_from_shape (t : jsstring) :
  (forall c, In c t -> is_lower c = true \/ is_space c = true) ->
  forall b,
    (forall c, In c (collapse_from b t) -> is_lower c = true \/ c = 32%N)
    /\ single_spaced b (collapse_from b t) = true.
Proof.
  induction t as [| c t IH]; intros Ht b; [split; [intros c [] | reflexivity] |].
  destruct (IH (fun d Hd => Ht d (or_intror Hd)) true) as [IHc1 IHs1].
  destruct (IH (fun d Hd => Ht d (or_intror Hd)) false) as [IHc0 IHs0].
  cbn [collapse_from]. destruct (is_space c) eqn:Hc.
  - destruct b; cbn [app]; [split; assumption |].
    split; [intros d [<- | Hd]; [by right | by apply IHc1] |]. simpl. exact IHs1.
  - destruct (Ht c (or_introl eq_refl)) as [Hl | Hs]; [| congruence].
    split; [intros d [<- | Hd]; [by left | by apply IHc0] |].
    cbn [single_spaced]. destruct (lower_is_no_space c Hl) as [_ Hne].
    apply N.eqb_neq in Hne. rewrite Hne. exact IHs0.
Qed.

Lemma single_spaced_lookup (s : jsstring) :
  forall b, single_spaced b s = true ->
    (b = true -> head s <> Some 32%N)
    /\ forall i, s !! i = Some 32%N -> s !! S i <> Some 32%N.
Proof.
  induction s as [| c s IH]; intros b H; [split; [discriminate | intros i; discriminate] |].
  cbn [single_spaced] in H. destruct (c =? 32)%N eqn:Hc.
  - apply andb_true_iff in H as [Hb H]. destruct (IH true H) as [Hh Hi]. split.
    + intros ->. discriminate.
    + intros [| i]; [| apply Hi]. intros _. specialize (Hh eq_refl).
      simpl. by rewrite <- head_lookup.
  - destruct (IH false H) as [_ Hi]. apply N.eqb_neq in Hc. split.
    + intros _ [= E]. by apply Hc.
    + intros [| i]; [| apply Hi]. intros [= E]. by destruct Hc.
Qed.

(** What formatMood returns is normalized. *)
Lemma formatMood_normalized (mood : jsstring) : normalized (formatMood mood).
Proof.
  unfold normalized.
  unfold formatMood, collapse_spaces.
  destruct (collapse_from_shape (flat_map lower_letters mood) (lower_letters_chars mood) false)
    as [Hchars Hss].
  apply single_spaced_lookup in Hss as [_ Hadj].
  set (u := collapse_from false (flat_map lower_letters mood)) in *.
  destruct (trim_take_drop u) as (j & k & Ht).
  assert (forall i c, trim u !! i = Some c -> u !! (j + i)%nat = Some c) as Hlook.
  { intros i c. rewrite Ht. intros H. apply lookup_take_Some in H as [H _].
    by rewrite lookup_drop in H. }
  assert (forall c, In c (trim u) -> is_lower c = true \/ c = 32%N) as Hin.
  { intros c Hc. apply list_elem_of_In, list_elem_of_lookup in Hc as [i Hi].
    apply Hchars, list_elem_of_In, list_elem_of_lookup. eauto. }
  assert (forall c, In c (trim u) -> is_space c = false -> is_lower c = true) as Hlow.
  { intros c Hc Hs. destruct (Hin c Hc) as [H | ->]; [exact H | discriminate]. }
  repeat split.
  - exact Hin.
  - intros c Hc. apply Hlow; [| by apply (trim_head u)].
    rewrite head_lookup in Hc. apply list_elem_of_In, list_elem_of_lookup. eauto.
  - intros c Hc. apply Hlow; [| by apply (trim_last u)].
    rewrite last_lookup in Hc. apply list_elem_of_In, list_elem_of_lookup. eauto.
  - intros i H1 H2. apply Hlook in H1, H2.
    replace (j + S i)%nat with (S (j + i)) in H2 by lia. by apply (Hadj (j + i)%nat).
Qed.

Lemma collapse_from_id (s : jsstring) :
  forall b,
    (forall c, In c s -> is_lower c = true \/ c = 32%N) ->
    (b = true -> head s <> Some 32%N) ->
    (forall i, s !! i = Some 32%N -> s !! S i <> Some 32%N) ->
    collapse_from b s = s.
Proof.
  induction s as [| c s IH]; intros b Hc Hh Hadj; [reflexivity |].
  cbn [collapse_from].
  assert (forall d, In d s -> is_lower d = true \/ d = 32%N) as Hc'
    by (intros d Hd; apply Hc; by right).
  assert (forall i, s !! i = Some 32%N -> s !! S i <> Some 32%N) as Hadj'
    by (intros i; apply (Hadj (S i))).
  destruct (Hc c (or_introl eq_refl)) as [Hl | ->].
  - destruct (lower_is_no_space c Hl) as [-> _]. f_equal. apply IH; try done.
  - cbn [is_space]. change (is_space 32) with true. cbn iota.
    destruct b; [exfalso; by apply Hh |]. cbn [app]. f_equal.
    apply IH; try done. intros _. rewrite head_lookup. by apply (Hadj 0%nat).
Qed.

Lemma lower_letters_id (s : jsstring) :
  (forall c, In c s -> is_lower c = true \/ c = 32%N) -> flat_map lower_letters s = s.
Proof.
  induction s as [| c s IH]; intros Hc; [reflexivity |]. cbn [flat_map].
  rewrite IH by (intros d Hd; apply Hc; by right).
  assert (lower_letters c = [c]) as ->; [| reflexivity].
  destruct (Hc c (or_introl eq_refl)) as [Hl | ->]; [| reflexivity].
  unfold lower_letters. unfold is_lower in Hl. rewrite Hl.
  apply andb_true_iff in Hl as [H1 H2]. apply N.leb_le in H1, H2.
  assert ((65 <=? c) && (c <=? 90) = false)%N as ->; [| reflexivity].
  apply andb_false_iff. right. apply N.leb_gt. lia.
Qed.

(** formatMood leaves a normalized mood as it is. *)
Lemma normalized_fixed (m : jsstring) : normalized m -> formatMood m = m.
Proof.
  intros (Hc & Hh & Hl & Hadj). unfold formatMood.
  rewrite lower_letters_id by exact Hc. unfold collapse_spaces.
  rewrite collapse_from_id; [| exact Hc | discriminate | exact Hadj].
  unfold trim. rewrite (trim_start_id m).
  2:{ intros c H. exact (proj1 (lower_is_no_space c (Hh c H))). }
  rewrite (trim_start_id (rev m)); [apply rev_involutive |].
  intros c H. rewrite head_rev in H. exact (proj1 (lower_is_no_space c (Hl c H))).
Qed.

(** ** GET /api/playlist *)

(** With a token that has a string form the Authorization header is
    Bearer, a space and that form. *)
Lemma authorization_text (token : JSValue) (text : jsstring) :
  ToString token = Some text ->
  bearer token = Some (str "Bearer " ++ text)
  /\ forall q, search_call token q = GetSearch q 5 (str "Bearer " ++ text).
Proof.
  intros H. unfold search_call, authorization, bearer. rewrite H. split; reflexivity.
Qed.

Lemma bearer_none (token : JSValue) : bearer token = None <-> ToString token = None.
Proof. unfold bearer. destruct (ToString token); split; intros H; congruence. Qed.

(** One round of the loop: with a token that has a string form the search
    is called and its answer decides; with another token building the
    request throws, nothing is called and the loop goes on. *)
Lemma search_once_spec (w : World) (token : JSValue) (q : jsstring) (tr : list Call) :
  search_once w token q tr =
    match bearer token with
    | Some _ =>
        (Normal (if has_results (w tr (search_call token q))
                 then Some (first_result (w tr (search_call token q)))
                 else None),
         tr ++ [search_call token q])
    | None => (Normal None, tr)
    end.
Proof.
  unfold search_once, search_call, authorization, has_results, first_result, evaluate.
  unfold_monad.
  destruct (bearer token) as [a |]; [| reflexivity]. cbn [default].
  destruct (w tr _) as [data | e]; [| reflexivity].
  destruct (is_nullish (playlists_items data)); [reflexivity |]. cbn [negb andb].
  destruct (has_positive_length _) as [[] |]; reflexivity.
Qed.

(** With a token that has no string form the loop calls nothing and finds
    nothing. *)
Lemma search_loop_unprintable (w : World) (token : JSValue) (queries : list jsstring)
    (tr : list Call) :
  bearer token = None -> search_loop w token queries tr = (Normal JUndefined, tr).
Proof.
  intros Hb. induction queries as [| q queries IH]; [reflexivity |].
  cbn [search_loop]. unfold bind. rewrite search_once_spec, Hb. exact IH.
Qed.

Lemma answer_of_cons (w : World) (token : JSValue) (tr : list Call) (q : jsstring)
    (queries : list jsstring) (i : nat) :
  answer_of w token tr (q :: queries) (S i)
  = answer_of w token (tr ++ [search_call token q]) queries i.
Proof. unfold answer_of. simpl. by rewrite <- app_assoc. Qed.

(** The loop stops at the first query whose answer has results and takes the
    first of them; a query without results, or whose call failed, is passed
    over; when no query has results the variable stays undefined. *)
Lemma search_loop_first_hit (w : World) (token : JSValue) (queries : list jsstring) :
  bearer token <> None ->
  forall (tr : list Call) (n : nat),
    (forall i, (i < n)%nat -> has_results (answer_of w token tr queries i) = false) ->
    (n = length queries ->
     search_loop w token queries tr
     = (Normal JUndefined, tr ++ map (search_call token) queries))
    /\ ((n < length queries)%nat ->
        has_results (answer_of w token tr queries n) = true ->
        search_loop w token queries tr
        = (Normal (first_result (answer_of w token tr queries n)),
           tr ++ map (search_call token) (take (S n) queries))).
Proof.
  intros Hb. induction queries as [| q queries IH]; intros tr n Hbefore.
  - split; [intros _; simpl; by rewrite app_nil_r | simpl; lia].
  - cbn [search_loop]. unfold bind. rewrite search_once_spec.
    destruct (bearer token) as [a |] eqn:Ha; [| done].
    destruct n as [| n].
    + split; [discriminate |]. intros _ Hhit.
      unfold answer_of in *. cbn in Hhit |- *. rewrite app_nil_r in *.
      rewrite Hhit. reflexivity.
    + assert (has_results (w tr (search_call token q)) = false) as H0.
      { specialize (Hbefore 0%nat ltac:(lia)). unfold answer_of in Hbefore.
        cbn in Hbefore. by rewrite app_nil_r in Hbefore. }
      rewrite H0.
      destruct (IH (tr ++ [search_call token q]) n) as [Hall Hhit].
      { intros i Hi. rewrite <- answer_of_cons. apply Hbefore. lia. }
      split.
      * intros [= Hn]. rewrite (Hall Hn). cbn. by rewrite <- app_assoc.
      * intros Hlt. rewrite answer_of_cons. intros Hh.
        rewrite Hhit by (cbn in Hlt; lia || assumption). cbn. by rewrite <- app_assoc.
Qed.

Lemma search_loop_normal (w : World) (token : JSValue) (queries : list jsstring) :
  forall tr, exists p k,
    search_loop w token queries tr
    = (Normal p, tr ++ map (search_call token) (take k queries)).
Proof.
  destruct (bearer token) as [a |] eqn:Ha.
  - induction queries as [| q queries IH]; intros tr.
    + exists JUndefined, 0%nat. simpl. by rewrite app_nil_r.
    + cbn [search_loop]. unfold bind. rewrite search_once_spec, Ha.
      destruct (has_results _).
      * eexists _, 1%nat. reflexivity.
      * destruct (IH (tr ++ [search_call token q])) as (p & k & ->).
        exists p, (S k). cbn. by rewrite <- app_assoc.
  - intros tr. exists JUndefined, 0%nat.
    rewrite search_loop_unprintable by assumption. by rewrite take_0, app_nil_r.
Qed.

(** Either no query has results, or there is a first one that has. *)
Lemma first_hit_cases (w : World) (token : JSValue) (queries : list jsstring) :
  forall tr,
    (forall i, (i < length queries)%nat ->
               has_results (answer_of w token tr queries i) = false)
    \/ exists n, (n < length queries)%nat
         /\ (forall i, (i < n)%nat -> has_results (answer_of w token tr queries i) = false)
         /\ has_results (answer_of w token tr queries n) = true.
Proof.
  induction queries as [| q queries IH]; intros tr.
  - left. simpl. lia.
  - destruct (has_results (answer_of w token tr (q :: queries) 0)) eqn:H0.
    + right. exists 0%nat. repeat split; [simpl; lia | lia | exact H0].
    + destruct (IH (tr ++ [search_call token q])) as [Hall | (n & Hn & Hbefore & Hhit)].
      * left. intros [| i] Hi; [exact H0 |]. rewrite answer_of_cons. apply Hall.
        simpl in Hi. lia.
      * right. exists (S n). repeat split.
        -- simpl. lia.
        -- intros [| i] Hi; [exact H0 |]. rewrite answer_of_cons. apply Hbefore. lia.
        -- by rewrite answer_of_cons.
Qed.

(** The whole of /api/playlist, stage by stage. *)
Lemma playlist_stages (cfg : Config) (w : World) (req : Request) :
  playlist cfg w req =
    if truthy (param req "mood") then
      match getSpotifyToken cfg w [] with
      | (Normal token, tr) =>
          match param req "mood" with
          | JStr s =>
              match search_loop w token (searchQueries (formatMood s)) tr with
              | (Normal p, tr') =>
                  (if truthy p then playlist_found p else no_playlists, tr')
              | (_, tr') => (no_response, tr')
              end
          | _ => (playlist_failed, tr)
          end
      | (_, tr) => (playlist_failed, tr)
      end
    else (json_error 400 "Mood is required", []).
Proof.
  unfold playlist, run, playlist_handler.
  unfold try_catch at 1. unfold bind at 1.
  destruct (truthy (param req "mood")); [| reflexivity]. cbn [negb ret].
  unfold bind at 1.
  destruct (getSpotifyToken_cases cfg w []) as [(token & -> & _) | (e & tr' & -> & He)].
  - unfold bind at 1. destruct (param req "mood"); try reflexivity.
    unfold ret at 1. unfold bind at 1.
    destruct (search_loop_normal w token (searchQueries (formatMood s)) ([] ++ [token_call cfg]))
      as (p & k & ->).
    unfold bind at 1. destruct (truthy p); reflexivity.
  - rewrite He. reflexivity.
Qed.






(** The route never calls the completion provider. *)
Lemma playlist_calls (cfg : Config) (w : World) (req : Request) (c : Call) :
  In c (snd (playlist cfg w req)) ->
  c = token_call cfg \/ exists token q, c = search_call token q.
Proof.
  rewrite playlist_stages. destruct (truthy _); [| intros []].
  destruct (getSpotifyToken_trace cfg w []) as [rest Hrest].
  destruct (getSpotifyToken_cases cfg w []) as [(token & Ht & _) | (e & tr' & Ht & He)];
    rewrite Ht in *; cbn [snd] in *.
  - destruct (param req "mood"); cbn [snd];
      try (intros [<- | []]; left; reflexivity).
    destruct (search_loop_normal w token (searchQueries (formatMood s)) ([] ++ [token_call cfg]))
      as (p & k & ->).
    cbn [snd]. rewrite in_app_iff. intros [[<- | []] | Hin]; [by left |].
    apply in_map_iff in Hin as (q & <- & _). right. eauto.
  - revert Ht. unfold getSpotifyToken. unfold_monad.
    destruct (_ || _); [intros [= <- <-] []|].
    destruct (w [] _); [destruct (_ || _) |]; intros [= <- <-] [<- | []]; by left.
Qed.

(** X2.  The answers of /api/playlist are 200, 400, 404 and 500; in
    particular it never answers 401, whatever the catalog provider did:
    [getSpotifyToken] rethrows every failure as a new error without
    response, and a failed search is passed over. *)
Lemma playlist_statuses (cfg : Config) (w : World) (req : Request) :
  In (status (fst (playlist cfg w req))) [200; 400; 404; 500].
Proof.
  rewrite playlist_stages. destruct (truthy _); [| cbn; tauto].
  destruct (getSpotifyToken_cases cfg w []) as [(token & -> & _) | (e & tr' & -> & He)];
    [| cbn; tauto].
  destruct (param req "mood"); try (cbn; tauto).
  destruct (search_loop_normal w token (searchQueries (formatMood s)) ([] ++ [token_call cfg]))
    as (p & k & ->).
  destruct (truthy p); cbn; tauto.
Qed.

(** C4 (as amended).  With a mood that is a non-empty string and a token,
    when some query yields a match (the first query whose result list is
    not empty has a truthy first item), the response is 200 and its body is
    the object that holds, under the one key playlist, the id, name,
    description, external_urls, images and owner of the match; there is no
    mood description, and the completion provider is not called.  When no
    query has results, the response is 404. *)
Theorem playlist_match_response (cfg : Config) (w : World) (req : Request)
    (s : jsstring) (token : JSValue) (text : jsstring) :
  param req "mood" = JStr s -> s <> [] ->
  getSpotifyToken cfg w [] = (Normal token, [token_call cfg]) ->
  ToString token = Some text ->
  let answer := answer_of w token [token_call cfg] (searchQueries (formatMood s)) in
  (forall n, (n < 4)%nat ->
     (forall i, (i < n)%nat -> has_results (answer i) = false) ->
     has_results (answer n) = true ->
     truthy (first_result (answer n)) = true ->
     fst (playlist cfg w req)
     = {| status := 200;
          body :=
            obj [prop "playlist"
                   (obj [ prop "id" (get (first_result (answer n)) (str "id"));
                          prop "name" (get (first_result (answer n)) (str "name"));
                          prop "description" (get (first_result (answer n)) (str "description"));
                          prop "external_urls"
                            (get (first_result (answer n)) (str "external_urls"));
                          prop "images" (get (first_result (answer n)) (str "images"));
                          prop "owner" (get (first_result (answer n)) (str "owner")) ])] |}
     /\ (forall k, k <> str "playlist" ->
                   get (body (fst (playlist cfg w req))) k = JUndefined)
     /\ (forall r, ~ In (PostChat r) (snd (playlist cfg w req))))
  /\ ((forall i, (i < 4)%nat -> has_results (answer i) = false) ->
      fst (playlist cfg w req)
      = json_error 404 "No playlists found. Try a different mood or check back later."
      /\ status (fst (playlist cfg w req)) = 404
      /\ (forall r, ~ In (PostChat r) (snd (playlist cfg w req)))).
Proof.
  intros Hmood Hs Htoken Htext answer.
  assert (forall r, ~ In (PostChat r) (snd (playlist cfg w req))) as Hno.
  { intros r Hin. apply playlist_calls in Hin as [H | (t & q & H)]; discriminate. }
  assert (truthy (param req "mood") = true) as Ht.
  { rewrite Hmood. simpl. by rewrite bool_decide_eq_false_2. }
  assert (bearer token <> None) as Hsome.
  { rewrite (proj1 (authorization_text token text Htext)). discriminate. }
  split.
  - intros n Hn Hbefore Hhit Hp.
    destruct (search_loop_first_hit w token (searchQueries (formatMood s)) Hsome
                [token_call cfg] n Hbefore) as [_ Hfound].
    split; [| split; [| exact Hno]].
    + rewrite playlist_stages, Ht, Htoken, Hmood, (Hfound Hn Hhit).
      fold answer. rewrite Hp. reflexivity.
    + intros k Hk. rewrite playlist_stages, Ht, Htoken, Hmood, (Hfound Hn Hhit).
      fold answer. rewrite Hp. cbn [fst body playlist_found].
      unfold obj, get. cbn [list_to_map foldr prop fst snd uncurry].
      rewrite lookup_insert_ne by (intros E; by apply Hk). reflexivity.
  - intros Hnone.
    destruct (search_loop_first_hit w token (searchQueries (formatMood s)) Hsome
                [token_call cfg] 4 Hnone) as [Hall _].
    split; [| split; [| exact Hno]];
      rewrite playlist_stages, Ht, Htoken, Hmood, (Hall eq_refl); reflexivity.
Qed.

Lemma playlist_match_response_witness :
  has_results (answer_of Sample.all_up (JStr (str "tok")) [token_call Sample.cfg]
                 (searchQueries (formatMood (str "rainy"))) 0) = true
  /\ fst (playlist Sample.cfg Sample.all_up Sample.rainy)
     = {| status := 200;
          body :=
            obj [prop "playlist"
                   (obj [ prop "id" (JStr (str "37i9"));
                          prop "name" (JStr (str "Rainy Day"));
                          prop "description" JNull;
                          prop "external_urls"
                            (obj [prop "spotify"
                                    (JStr (str "https://open.spotify.com/playlist/37i9"))]);
                          prop "images" (JArr []);
                          prop "owner" JUndefined ])] |}.
Proof.
  split; [reflexivity |].
  exact (proj1 (proj1 (playlist_match_response Sample.cfg Sample.all_up Sample.rainy
                         (str "rainy") (JStr (str "tok")) (str "tok")
                         eq_refl ltac:(discriminate) eq_refl eq_refl)
                  0%nat ltac:(lia) ltac:(intros i Hi; lia) eq_refl eq_refl)).
Defined.

(** C4 as stated fails: the first query has a match and the response is
    200, but its body nests the catalog playlist under the key playlist; it
    has no name, url or moodDescription of its own, and the completion
    provider is not called. *)
Lemma playlist_match_is_nested :
  playlist Sample.cfg Sample.all_up Sample.rainy
  = (playlist_found Sample.catalog_playlist,
     [token_call Sample.cfg; search_call (JStr (str "tok")) (str "rainy playlist")])
  /\ get (body (playlist_found Sample.catalog_playlist)) (str "moodDescription") = JUndefined
  /\ get (body (playlist_found Sample.catalog_playlist)) (str "name") = JUndefined
  /\ get (body (playlist_found Sample.catalog_playlist)) (str "url") = JUndefined
  /\ get (get (body (playlist_found Sample.catalog_playlist)) (str "playlist")) (str "name")
     = JStr (str "Rainy Day").
Proof. vm_compute. repeat split; reflexivity. Qed.

(** ** Both handlers always answer *)

Lemma playlist_responds (cfg : Config) (w : World) (req : Request) :
  exists r tr, playlist_handler cfg w req [] = (Respond r, tr).
Proof.
  unfold playlist_handler.
  unfold try_catch at 1. unfold bind at 1.
  destruct (truthy (param req "mood")); [| cbn; eauto]. cbn [negb ret].
  unfold bind at 1.
  destruct (getSpotifyToken_cases cfg w []) as [(token & -> & _) | (e & tr' & -> & He)].
  - unfold bind at 1. destruct (param req "mood"); try solve [cbn; eauto].
    unfold ret at 1. unfold bind at 1.
    destruct (search_loop_normal w token (searchQueries (formatMood s)) ([] ++ [token_call cfg]))
      as (p & k & ->).
    unfold bind at 1. destruct (truthy p); cbn; eauto.
  - rewrite He. cbn. eauto.
Qed.

Lemma experience_responds (cfg : Config) (w : World) (req : Request) :
  exists r tr, experience_handler cfg w req [] = (Respond r, tr).
Proof.
  unfold experience_handler.
  unfold try_catch at 1. unfold bind at 1.
  rewrite validate_mood_spec. destruct (valid_mood req); [| eauto].
  unfold bind at 1. rewrite parse_ingredients_spec.
  destruct (ingredients_of req) as [l |]; [| eauto].
  unfold bind at 1.
  destruct (chat_request _ _ _ _) as [request |];
    [| cbn [evaluate throw]; rewrite experience_error_spec; eauto].
  cbn [evaluate ret].
  unfold bind at 1. unfold axios. destruct (w [] _) as [data | e]; simpl.
  - unfold bind at 1.
    destruct (parse_experience data _) as [[v | e | r] tr] eqn:Hp.
    + unfold bind at 1.
      destruct (enrich_normal cfg w (param req "mood") v tr) as (v' & tr' & ->).
      cbn. eauto.
    + rewrite experience_error_spec. eauto.
    + eauto.
  - rewrite experience_error_spec. eauto.
Qed.

(** * Further properties *)

(** ** More on getSpotifyToken *)

(** What getSpotifyToken does, the startup validation included. *)
Lemma getSpotifyToken_contract (cfg : Config) (w : World) (tr : list Call) :
  match getSpotifyToken cfg w tr with
  | (Normal token, tr') =>
      tr' = tr ++ [token_call cfg] /\ truthy token = true
      /\ exists data, w tr (token_call cfg) = Resolved data
                      /\ token = get data (str "access_token")
  | (Throw e, tr') =>
      response_status e = None
      /\ is_prefix (str "Failed to get Spotify token: ") (message e) = true
      /\ (tr' = tr \/ tr' = tr ++ [token_call cfg])
      /\ (starts cfg = true -> tr' = tr ++ [token_call cfg])
  | (Respond _, _) => False
  end.
Proof.
  unfold getSpotifyToken, token_call, starts. unfold_monad.
  destruct (negb _ || negb _).
  - repeat split; [auto | discriminate].
  - destruct (w tr _) as [data | e] eqn:Hw.
    + destruct (truthy data) eqn:Hd; cbn [negb orb].
      * destruct (truthy (get data (str "access_token"))) eqn:Ht; cbn [negb].
        -- repeat split; eauto.
        -- repeat split; auto.
      * repeat split; auto.
    + repeat split; auto.
Qed.

(** X1.  getSpotifyToken either returns the truthy [access_token] of the
    answer to its one call, or throws an error whose message starts with
    "Failed to get Spotify token: " and which carries no response status,
    whatever made it fail (the status of a rejected call is lost); it makes
    at most its one call. *)
Theorem getSpotifyToken_outcomes (cfg : Config) (w : World) (tr : list Call) :
  match getSpotifyToken cfg w tr with
  | (Normal token, tr') =>
      tr' = tr ++ [token_call cfg] /\ truthy token = true
      /\ exists data, w tr (token_call cfg) = Resolved data
                      /\ token = get data (str "access_token")
  | (Throw e, tr') =>
      response_status e = None
      /\ is_prefix (str "Failed to get Spotify token: ") (message e) = true
      /\ (tr' = tr \/ tr' = tr ++ [token_call cfg])
  | (Respond _, _) => False
  end.
Proof.
  pose proof (getSpotifyToken_contract cfg w tr) as H.
  destruct (getSpotifyToken cfg w tr) as [[token | e | r] tr']; [exact H | | exact H].
  destruct H as (H1 & H2 & H3 & _). auto.
Qed.

(** ** More on GET /api/playlist *)

Lemma search_loop_bounded (w : World) (token : JSValue) (queries : list jsstring) :
  forall tr, exists p k,
    (k <= length queries)%nat
    /\ search_loop w token queries tr
       = (Normal p, tr ++ map (search_call token) (take k queries)).
Proof.
  destruct (bearer token) as [a |] eqn:Ha.
  - induction queries as [| q queries IH]; intros tr.
    + exists JUndefined, 0%nat. simpl. split; [lia | by rewrite app_nil_r].
    + cbn [search_loop]. unfold bind. rewrite search_once_spec, Ha.
      destruct (has_results _).
      * eexists _, 1%nat. split; [simpl; lia | reflexivity].
      * destruct (IH (tr ++ [search_call token q])) as (p & k & Hk & ->).
        exists p, (S k). split; [simpl; lia |]. cbn. by rewrite <- app_assoc.
  - intros tr. exists JUndefined, 0%nat. split; [lia |].
    rewrite search_loop_unprintable by assumption. by rewrite take_0, app_nil_r.
Qed.

(** X3.  The outbound calls of /api/playlist are none at all, or the token
    call alone, or the token call followed by the first k of the four
    searches over the normalized mood, in their order, k being at most four;
    the completion provider is never called. *)
Theorem playlist_call_order (cfg : Config) (w : World) (req : Request) :
  snd (playlist cfg w req) = []
  \/ snd (playlist cfg w req) = [token_call cfg]
  \/ exists s token k,
       param req "mood" = JStr s /\ (k <= 4)%nat
       /\ getSpotifyToken cfg w [] = (Normal token, [token_call cfg])
       /\ snd (playlist cfg w req)
          = token_call cfg :: map (search_call token) (take k (searchQueries (formatMood s))).
Proof.
  rewrite playlist_stages. destruct (truthy _); [| by left].
  pose proof (getSpotifyToken_contract cfg w []) as Hc.
  destruct (getSpotifyToken cfg w []) as [[token | e | r] tr]; [| | destruct Hc].
  - destruct Hc as (-> & _ & _).
    destruct (param req "mood") eqn:Hm; try (right; left; reflexivity).
    destruct (search_loop_bounded w token (searchQueries (formatMood s)) ([] ++ [token_call cfg]))
      as (p & k & Hk & ->).
    right. right. exists s, token, k. repeat split; try reflexivity. exact Hk.
  - destruct Hc as (_ & _ & [-> | ->] & _); [by left | right; by left].
Qed.

(** X4.  /api/playlist answers 400 without any outbound call when the mood
    is missing or empty.  A mood that is not a string (two mood parameters
    make an array) is only found out after the token was requested: in a
    process that passed the startup validation the token call is made and
    the answer is 500. *)
Theorem playlist_mood_edges (cfg : Config) (w : World) (req : Request) :
  (truthy (param req "mood") = false ->
   playlist cfg w req = (json_error 400 "Mood is required", []))
  /\ (truthy (param req "mood") = true -> is_string (param req "mood") = false ->
      starts cfg = true ->
      playlist cfg w req = (playlist_failed, [token_call cfg])).
Proof.
  split.
  - intros Ht. rewrite playlist_stages, Ht. reflexivity.
  - intros Ht Hs Hc. rewrite playlist_stages, Ht.
    pose proof (getSpotifyToken_contract cfg w []) as H.
    destruct (getSpotifyToken cfg w []) as [[token | e | r] tr]; [| | destruct H].
    + destruct H as (-> & _). destruct (param req "mood"); try reflexivity. discriminate.
    + destruct H as (_ & _ & _ & H). rewrite (H Hc). reflexivity.
Qed.

Lemma playlist_mood_edges_witness :
  truthy (param two_moods "mood") = true
  /\ is_string (param two_moods "mood") = false
  /\ starts Sample.cfg = true
  /\ playlist Sample.cfg Sample.all_up two_moods = (playlist_failed, [token_call Sample.cfg]).
Proof.
  split; [reflexivity |]. split; [reflexivity |]. split; [reflexivity |].
  apply (proj2 (playlist_mood_edges Sample.cfg Sample.all_up two_moods)); reflexivity.
Defined.

(** X5.  When getSpotifyToken throws, /api/playlist answers 500 with the
    generic message and issues no search; the token call is the only call
    it can have made. *)
Theorem playlist_without_token (cfg : Config) (w : World) (req : Request) (e : Error)
    (tr : list Call) :
  truthy (param req "mood") = true ->
  getSpotifyToken cfg w [] = (Throw e, tr) ->
  playlist cfg w req = (playlist_failed, tr)
  /\ forall c, In c tr -> c = token_call cfg.
Proof.
  intros Ht Hg. rewrite playlist_stages, Ht, Hg. split; [reflexivity |].
  pose proof (getSpotifyToken_contract cfg w []) as H. rewrite Hg in H.
  destruct H as (_ & _ & [-> | ->] & _); [intros c [] | intros c [<- | []]; reflexivity].
Qed.

Lemma playlist_without_token_witness :
  truthy (param Sample.rainy "mood") = true
  /\ playlist Sample.cfg Sample.catalog_unauthorized Sample.rainy
     = (playlist_failed, [token_call Sample.cfg])
  /\ forall c, In c [token_call Sample.cfg] -> c = token_call Sample.cfg.
Proof.
  split; [reflexivity |].
  apply (playlist_without_token Sample.cfg Sample.catalog_unauthorized Sample.rainy
           (new_Error (str "Failed to get Spotify token: Request failed with status code 401")));
    reflexivity.
Defined.

(** X6.  /api/playlist answers 200 only for a match: the mood is a
    non-empty string, a token that has a string form was acquired, one of
    the four queries is the first whose answer has a result list that is
    not empty, the first item of that list is truthy and the response is
    built from that item; the calls are the token call and the searches up
    to that query. *)
Theorem playlist_200 (cfg : Config) (w : World) (req : Request) :
  status (fst (playlist cfg w req)) = 200 ->
  exists s token text n,
    let answer := answer_of w token [token_call cfg] (searchQueries (formatMood s)) in
    param req "mood" = JStr s /\ s <> []
    /\ getSpotifyToken cfg w [] = (Normal token, [token_call cfg])
    /\ ToString token = Some text
    /\ (n < 4)%nat
    /\ (forall i, (i < n)%nat -> has_results (answer i) = false)
    /\ has_results (answer n) = true
    /\ truthy (first_result (answer n)) = true
    /\ playlist cfg w req
       = (playlist_found (first_result (answer n)),
          token_call cfg
          :: map (fun q => GetSearch q 5 (str "Bearer " ++ text))
               (take (S n) (searchQueries (formatMood s)))).
Proof.
  rewrite playlist_stages.
  destruct (truthy (param req "mood")) eqn:Ht; [| discriminate].
  pose proof (getSpotifyToken_contract cfg w []) as Hc.
  destruct (getSpotifyToken cfg w []) as [[token | e | r] tr] eqn:Hg;
    [| discriminate | destruct Hc].
  destruct Hc as (-> & _).
  destruct (param req "mood") as [| | | | s | |] eqn:Hm; try discriminate.
  assert (s <> []) as Hs by (intros ->; discriminate).
  destruct (ToString token) as [text |] eqn:Htext.
  2:{ rewrite search_loop_unprintable by (by apply bearer_none). discriminate. }
  destruct (authorization_text token text Htext) as [Hb Hcall].
  assert (bearer token <> None) as Hsome by (rewrite Hb; discriminate).
  change ([] ++ [token_call cfg]) with [token_call cfg].
  destruct (first_hit_cases w token (searchQueries (formatMood s)) [token_call cfg])
    as [Hnone | (n & Hn & Hbefore & Hhit)].
  - destruct (search_loop_first_hit w token (searchQueries (formatMood s)) Hsome
                [token_call cfg] 4 Hnone) as [Hall _].
    rewrite (Hall eq_refl). discriminate.
  - destruct (search_loop_first_hit w token (searchQueries (formatMood s)) Hsome
                [token_call cfg] n Hbefore) as [_ Hfound].
    rewrite (Hfound Hn Hhit).
    destruct (truthy (first_result _)) eqn:Hp; [| discriminate].
    intros _. exists s, token, text, n. cbn zeta.
    repeat split; try assumption.
    rewrite (map_ext _ _ Hcall). reflexivity.
Qed.

Lemma playlist_200_witness :
  exists s token text n,
    let answer :=
      answer_of Sample.all_up token [token_call Sample.cfg] (searchQueries (formatMood s)) in
    param Sample.rainy "mood" = JStr s /\ s <> []
    /\ getSpotifyToken Sample.cfg Sample.all_up [] = (Normal token, [token_call Sample.cfg])
    /\ ToString token = Some text
    /\ (n < 4)%nat
    /\ (forall i, (i < n)%nat -> has_results (answer i) = false)
    /\ has_results (answer n) = true
    /\ truthy (first_result (answer n)) = true
    /\ playlist Sample.cfg Sample.all_up Sample.rainy
       = (playlist_found (first_result (answer n)),
          token_call Sample.cfg
          :: map (fun q => GetSearch q 5 (str "Bearer " ++ text))
               (take (S n) (searchQueries (formatMood s)))).
Proof. apply (playlist_200 Sample.cfg Sample.all_up Sample.rainy). reflexivity. Defined.

(** ** More on GET /api/experience *)



Lemma enriched_calls (cfg : Config) (w : World) (mood v : JSValue) (tr : list Call) :
  snd (enriched cfg w mood v tr) = tr
  \/ snd (enriched cfg w mood v tr) = tr ++ [token_call cfg]
  \/ exists token c,
       enrichment_search mood token = Some c
       /\ snd (enriched cfg w mood v tr) = tr ++ [token_call cfg; c].
Proof.
  unfold enriched, enrich, enrichment_search, evaluate. unfold_monad.
  pose proof (getSpotifyToken_contract cfg w tr) as Hc.
  destruct (getSpotifyToken cfg w tr) as [[token | e | r] tr1]; [| | destruct Hc].
  - destruct Hc as (-> & _).
    destruct (ToString mood) as [mood_text |] eqn:Hmood; [| right; by left].
    destruct (bearer token) as [a |] eqn:Ha; [| right; by left].
    right. right. exists token. eexists. rewrite Ha. split; [reflexivity |].
    destruct (w _ _) as [data | e]; [| by rewrite <- app_assoc].
    destruct (truthy (first_item data)); [| by rewrite <- app_assoc].
    rewrite read_spec. destruct (is_nullish _); [by rewrite <- app_assoc |].
    unfold assign_playlist. destruct v; cbn; by rewrite <- app_assoc.
  - destruct Hc as (_ & _ & [-> | ->] & _); [by left | right; by left].
Qed.

(** An experience response is 200 exactly when the completion output was
    validated. *)
Lemma experience_200 (cfg : Config) (w : World) (req : Request) :
  status (fst (experience cfg w req)) = 200 <->
  exists l data v, generated cfg w req l data v.
Proof.
  rewrite experience_stages. unfold generated. split.
  - destruct (valid_mood req); [| discriminate].
    destruct (ingredients_of req) as [l |]; [| discriminate].
    assert (forall e tr, status (fst (error_response e, tr : list Call)) <> 200) as Herr.
    { intros e tr. cbn [fst]. rewrite error_response_status.
      repeat case_bool_decide; discriminate. }
    destruct (chat_call cfg req l) as [c |] eqn:Hcall; [| intros H; by apply Herr in H].
    destruct (w [] _) as [data | e] eqn:Hw; [| intros H; by apply Herr in H].
    rewrite parse_experience_spec.
    destruct (truthy (completion_content data)) eqn:Hc; cbn [negb];
      [| intros H; by apply Herr in H].
    destruct (parse_value _) as [v |] eqn:Hp; [| intros H; by apply Herr in H].
    destruct (is_nullish v) eqn:Hn; [intros H; by apply Herr in H |].
    destruct (first_missing v) eqn:Hf; [intros H; by apply Herr in H |].
    intros _. exists l, data, v. repeat split; eauto.
  - intros (l & data & v & -> & -> & (c & -> & ->) & Hc & Hp & Hn & Hf).
    rewrite parse_experience_spec, Hc, Hp, Hn, Hf. reflexivity.
Qed.

Lemma generated_response (cfg : Config) (w : World) (req : Request)
    (l : list JSValue) (data v : JSValue) :
  generated cfg w req l data v ->
  exists c, chat_call cfg req l = Some c
    /\ experience cfg w req
       = ({| status := 200;
             body := fst (enriched cfg w (param req "mood") v [c]) |},
          snd (enriched cfg w (param req "mood") v [c])).
Proof.
  intros (Hm & Hi & (c & Hcall & Hw) & Hc & Hp & Hn & Hf).
  exists c. split; [exact Hcall |].
  rewrite experience_stages, Hm, Hi, Hcall, Hw, parse_experience_spec, Hc, Hp, Hn, Hf.
  reflexivity.
Qed.

(** X7.  /api/experience answers 200, 400, 401, 429 or 500 and nothing else
    (never 404). *)
Theorem experience_statuses (cfg : Config) (w : World) (req : Request) :
  In (status (fst (experience cfg w req))) [200; 400; 401; 429; 500].
Proof.
  rewrite experience_stages.
  assert (forall e, In (status (error_response e)) [200; 400; 401; 429; 500]) as Herr.
  { intros e. rewrite error_response_status. repeat case_bool_decide; cbn; tauto. }
  destruct (valid_mood req); [| cbn; tauto].
  destruct (ingredients_of req) as [l |]; [| cbn; tauto].
  destruct (chat_call cfg req l) as [c |]; [| apply Herr].
  destruct (w [] _) as [data | e]; [| apply Herr].
  destruct (parse_experience data _) as [[v | e | r] tr] eqn:Hp;
    [cbn; tauto | apply Herr |].
  exfalso. exact (parse_experience_no_response _ _ _ _ Hp).
Qed.

(** X8.  A 400 of /api/experience is answered without any outbound call,
    and so is the 500 of a request whose ingredients cannot be joined into
    the user message (one of them is an object with a toString key of its
    own).  Every other response that is not 200 has made the completion
    call and no other: the catalog is only contacted once the completion
    output has been validated.  A 200 response has made the completion
    call, then at most the token call and the one search for the mood as
    given followed by " playlist", in this order. *)
Theorem experience_call_order (cfg : Config) (w : World) (req : Request) :
  (status (fst (experience cfg w req)) = 400 -> snd (experience cfg w req) = [])
  /\ (status (fst (experience cfg w req)) <> 400 ->
      exists l, ingredients_of req = Some l
        /\ match chat_call cfg req l with
           | None =>
               join l (str ", ") = None
               /\ experience cfg w req = (failure (message cannot_convert), [])
           | Some c =>
               (status (fst (experience cfg w req)) <> 200 ->
                snd (experience cfg w req) = [c])
               /\ (status (fst (experience cfg w req)) = 200 ->
                   snd (experience cfg w req) = [c]
                   \/ snd (experience cfg w req) = [c; token_call cfg]
                   \/ exists s token text,
                        param req "mood" = JStr s /\ ToString token = Some text
                        /\ snd (experience cfg w req)
                           = [c; token_call cfg;
                              GetSearch (s ++ str " playlist") 1 (str "Bearer " ++ text)])
           end).
Proof.
  split.
  - intros H. apply experience_status_400 in H. rewrite experience_stages.
    destruct H as [-> | H]; [reflexivity |]. rewrite H. by destruct (valid_mood req).
  - intros H.
    destruct (valid_mood req) eqn:Hm;
      [| exfalso; apply H, experience_status_400; by left].
    destruct (ingredients_of req) as [l |] eqn:Hi;
      [| exfalso; apply H, experience_status_400; by right].
    exists l. split; [reflexivity |].
    destruct (chat_call cfg req l) as [c |] eqn:Hcall.
    + split.
      * intros Hs. rewrite experience_stages, Hm, Hi, Hcall in Hs |- *.
        destruct (w [] _) as [data | e]; [| reflexivity].
        pose proof (parse_experience_trace data [c]) as Htr.
        destruct (parse_experience data _) as [[v | e | r] tr] eqn:Hp;
          cbn [snd] in Htr; subst tr; try reflexivity.
        exfalso. by apply Hs.
      * intros Hs. apply experience_200 in Hs as (l' & data & v & Hg).
        destruct (generated_response _ _ _ _ _ _ Hg) as (c' & Hc' & ->).
        destruct Hg as (_ & Hi' & _). rewrite Hi in Hi'. injection Hi' as <-.
        rewrite Hcall in Hc'. injection Hc' as <-. cbn [snd].
        destruct (enriched_calls cfg w (param req "mood") v [c])
          as [-> | [-> | (token & c' & Hsearch & ->)]]; [by left | right; by left |].
        right. right. destruct (valid_mood_string req Hm) as (s & Hs & _).
        revert Hsearch. unfold enrichment_search, bearer. rewrite Hs. cbn [ToString].
        destruct (ToString token) as [text |] eqn:Htext; [| discriminate].
        intros [= <-]. exists s, token, text. repeat split. exact Htext.
    + split; [| by apply (chat_request_fails cfg w req l)].
      revert Hcall. unfold chat_call, chat_request, with_ingredients.
      destruct (valid_mood_string req Hm) as (s & -> & _). cbn [ToString].
      case_bool_decide as Hl; [discriminate |].
      destruct (join l (str ", ")); [discriminate | reflexivity].
Qed.

Lemma experience_call_order_witness :
  exists l, ingredients_of unprintable = Some l
    /\ match chat_call Sample.cfg unprintable l with
       | None =>
           join l (str ", ") = None
           /\ experience Sample.cfg Sample.all_up unprintable
              = (failure (message cannot_convert), [])
       | Some c =>
           (status (fst (experience Sample.cfg Sample.all_up unprintable)) <> 200 ->
            snd (experience Sample.cfg Sample.all_up unprintable) = [c])
           /\ (status (fst (experience Sample.cfg Sample.all_up unprintable)) = 200 ->
               snd (experience Sample.cfg Sample.all_up unprintable) = [c]
               \/ snd (experience Sample.cfg Sample.all_up unprintable)
                  = [c; token_call Sample.cfg]
               \/ exists s token text,
                    param unprintable "mood" = JStr s /\ ToString token = Some text
                    /\ snd (experience Sample.cfg Sample.all_up unprintable)
                       = [c; token_call Sample.cfg;
                          GetSearch (s ++ str " playlist") 1 (str "Bearer " ++ text)])
       end.
Proof.
  apply (proj2 (experience_call_order Sample.cfg Sample.all_up unprintable)).
  intros H. vm_compute in H. discriminate H.
Defined.

(** X9.  Every 200 response of /api/experience, whatever the request and
    the providers, has an object as body, with a truthy value for each of
    the seven sections. *)
Theorem experience_200_is_complete (cfg : Config) (w : World) (req : Request) :
  status (fst (experience cfg w req)) = 200 ->
  (exists m, body (fst (experience cfg w req)) = JObj m)
  /\ forall section, In section requiredSections ->
       truthy (get (body (fst (experience cfg w req))) (str section)) = true.
Proof.
  intros Hs. apply experience_200 in Hs as (l & data & v & Hg).
  destruct (generated_response _ _ _ _ _ _ Hg) as (c & _ & ->). cbn [fst body].
  destruct Hg as (_ & _ & _ & _ & _ & Hn & Hf).
  destruct (validated_is_object v Hn Hf) as [m ->]. split.
  - rewrite enrich_object. destruct (enrichment _ _ _ _); try (eexists; reflexivity).
    destruct (is_nullish (get _ _)); eexists; reflexivity.
  - intros section Hin. apply enriched_sections. by apply first_missing_none.
Qed.

Lemma experience_200_is_complete_witness :
  (exists m, body (fst (experience Sample.cfg Sample.all_up Sample.rainy)) = JObj m)
  /\ forall section, In section requiredSections ->
       truthy (get (body (fst (experience Sample.cfg Sample.all_up Sample.rainy)))
                   (str section)) = true.
Proof.
  apply (experience_200_is_complete Sample.cfg Sample.all_up Sample.rainy).
  vm_compute. reflexivity.
Defined.

(** X10.  Whatever the catalog answers, the enrichment leaves every
    property of the validated completion output other than playlist as it
    is; the playlist section is the generated one, or an object that agrees
    with it on every property other than name, description, url and
    images. *)
Theorem enrichment_frame (cfg : Config) (w : World) (req : Request)
    (l : list JSValue) (data v : JSValue) :
  generated cfg w req l data v ->
  (forall k, k <> str "playlist" -> get (body (fst (experience cfg w req))) k = get v k)
  /\ (get (body (fst (experience cfg w req))) (str "playlist") = get v (str "playlist")
      \/ exists section : gmap jsstring JSValue,
           get (body (fst (experience cfg w req))) (str "playlist") = JObj section
           /\ forall k, k <> str "name" -> k <> str "description" -> k <> str "url" ->
                        k <> str "images" ->
                        section !! k = spread (get v (str "playlist")) !! k).
Proof.
  intros Hg. destruct (generated_response _ _ _ _ _ _ Hg) as (c & _ & ->). cbn [fst body].
  destruct Hg as (_ & _ & _ & _ & _ & Hn & Hf).
  destruct (validated_is_object v Hn Hf) as [m ->].
  rewrite enrich_object.
  destruct (enrichment _ _ _ _) as [| | | p]; try (split; [reflexivity | by left]).
  destruct (is_nullish (get p _)); [split; [reflexivity | by left] |].
  split.
  - intros k Hk. unfold get. by rewrite lookup_insert_ne.
  - right. eexists. split; [unfold get at 1; rewrite lookup_insert_eq; reflexivity |].
    intros k H1 H2 H3 H4. unfold merged_playlist. by rewrite !lookup_insert_ne.
Qed.

Lemma enrichment_frame_witness :
  generated Sample.cfg Sample.all_up Sample.rainy []
    (Sample.completion (JStr Sample.experience_text)) generated_sample
  /\ forall k, k <> str "playlist" ->
       get (body (fst (experience Sample.cfg Sample.all_up Sample.rainy))) k
       = get generated_sample k.
Proof.
  assert (generated Sample.cfg Sample.all_up Sample.rainy []
            (Sample.completion (JStr Sample.experience_text)) generated_sample) as H.
  { split; [reflexivity |]. split; [reflexivity |].
    split; [eexists; split; reflexivity |].
    repeat (split; [vm_compute; reflexivity |]). vm_compute. reflexivity. }
  split; [exact H |].
  exact (proj1 (enrichment_frame Sample.cfg Sample.all_up Sample.rainy []
                  (Sample.completion (JStr Sample.experience_text)) generated_sample H)).
Defined.

(** A response other than 200 has an error text. *)
Lemma refusal_error_text (cfg : Config) (w : World) (req : Request) :
  status (fst (experience cfg w req)) <> 200 ->
  exists s, get (body (fst (experience cfg w req))) (str "error") = JStr s /\ s <> [].
Proof.
  rewrite experience_stages.
  assert (forall e, exists s, get (body (error_response e)) (str "error") = JStr s /\ s <> [])
    as Herr.
  { intros e. unfold error_response. repeat case_bool_decide;
      try (eexists; split; [reflexivity | discriminate]).
    destruct (includes _ _); eexists; (split; [reflexivity | discriminate]). }
  destruct (valid_mood req); [| intros _; eexists; split; [reflexivity | discriminate]].
  destruct (ingredients_of req) as [l |];
    [| intros _; eexists; split; [reflexivity | discriminate]].
  destruct (chat_call cfg req l) as [c |]; [| intros _; apply Herr].
  destruct (w [] _) as [data | e]; [| intros _; apply Herr].
  destruct (parse_experience data _) as [[v | e | r] tr] eqn:Hp.
  - intros H. by destruct H.
  - intros _. apply Herr.
  - exfalso. exact (parse_experience_no_response _ _ _ _ Hp).
Qed.

(** X11.  Every response of /api/experience other than 200 has a non-empty
    string under the key error. *)
Theorem experience_error_text (cfg : Config) (w : World) (req : Request) :
  status (fst (experience cfg w req)) <> 200 ->
  exists s, get (body (fst (experience cfg w req))) (str "error") = JStr s /\ s <> [].
Proof. apply refusal_error_text. Qed.

Lemma experience_error_text_witness :
  exists s,
    get (body (fst (experience Sample.cfg (Sample.completion_rejects 429) Sample.rainy)))
        (str "error") = JStr s
    /\ s <> [].
Proof.
  apply (experience_error_text Sample.cfg (Sample.completion_rejects 429) Sample.rainy).
  intros H. vm_compute in H. discriminate H.
Defined.

(** X12.  When the completion call fails with a status other than 401 and
    429 (or without response), the message of the failure is passed on to
    the client in the details of the 500 response, unless it contains
    "Groq", in which case the response has the generic generation message
    and no details; a completion response without content is answered that
    same way. *)
Theorem completion_failure_body (cfg : Config) (w : World) (req : Request)
    (l : list JSValue) (c : Call) :
  valid_mood req = true -> ingredients_of req = Some l ->
  chat_call cfg req l = Some c ->
  (forall e, w [] c = Rejected e ->
     response_status e <> Some 401 -> response_status e <> Some 429 ->
     fst (experience cfg w req)
     = if includes (message e) (str "Groq")
       then json_error 500 "Failed to generate experience. Please try again later."
       else failure (message e))
  /\ (forall data, w [] c = Resolved data ->
        truthy (completion_content data) = false ->
        fst (experience cfg w req)
        = json_error 500 "Failed to generate experience. Please try again later.").
Proof.
  intros Hm Hi Hcall. split.
  - intros e Hw H1 H2. rewrite experience_stages, Hm, Hi, Hcall, Hw. cbn [fst].
    unfold error_response. by rewrite !bool_decide_eq_false_2.
  - intros data Hw Hc.
    rewrite experience_stages, Hm, Hi, Hcall, Hw, parse_experience_spec, Hc.
    reflexivity.
Qed.

Lemma completion_failure_body_witness :
  valid_mood Sample.rainy = true /\ ingredients_of Sample.rainy = Some []
  /\ fst (experience Sample.cfg (Sample.completion_rejects 503) Sample.rainy)
     = failure (str "Request failed").
Proof.
  split; [reflexivity |]. split; [reflexivity |].
  apply (proj1 (completion_failure_body Sample.cfg (Sample.completion_rejects 503) Sample.rainy []
                  _ eq_refl eq_refl eq_refl)
           {| message := str "Request failed"; response_status := Some 503 |});
    [reflexivity | discriminate | discriminate].
Defined.

(** ** The normalized mood, once more *)

(** X13.  The normalized mood of /api/playlist consists of the letters a to
    z and of spaces; it begins and ends with a letter (or is empty) and has
    no two spaces in a row. *)
Theorem formatMood_shape (mood : jsstring) :
  (forall c, In c (formatMood mood) -> is_lower c = true \/ c = 32%N)
  /\ (forall c, head (formatMood mood) = Some c -> is_lower c = true)
  /\ (forall c, last (formatMood mood) = Some c -> is_lower c = true)
  /\ (forall i, formatMood mood !! i = Some 32%N -> formatMood mood !! S i <> Some 32%N).
Proof. exact (formatMood_normalized mood). Qed.

(** X14.  The moods that formatMood leaves as they are, are exactly the
    strings of that shape; so normalizing a normalized mood changes
    nothing. *)
Theorem formatMood_idempotent (mood : jsstring) :
  (formatMood mood = mood <-> normalized mood)
  /\ formatMood (formatMood mood) = formatMood mood.
Proof.
  split; [split |].
  - intros <-. apply formatMood_normalized.
  - apply normalized_fixed.
  - apply normalized_fixed, formatMood_normalized.
Qed.

Module App_facts.
Import JS App.

(** ** The history of the page *)

Lemma slice_last_app {A} (n : nat) (l x : list A) :
  slice_last n (slice_last n l ++ x) = slice_last n (l ++ x).
Proof.
  unfold slice_last.
  destruct (decide (length l <= n)%nat) as [Hle | Hgt].
  - replace (length l - n)%nat with 0%nat by lia. reflexivity.
  - set (k := (length l - n)%nat).
    replace (length (l ++ x) - n)%nat with (k + length x)%nat
      by (rewrite length_app; lia).
    replace (length (drop k l ++ x) - n)%nat with (length x)
      by (rewrite length_app, length_drop; lia).
    rewrite <- drop_drop. f_equal. rewrite drop_app_le by lia. reflexivity.
Qed.

Lemma length_push_history (prev : list JSValue) (entry : JSValue) :
  length (push_history prev entry) = Nat.min 10 (S (length prev)).
Proof.
  unfold push_history, slice_last. rewrite length_drop, length_app. cbn [length]. lia.
Qed.

(** X15.  After a generation the history has one entry more than before, but
    ten at most, whatever its length was, and the new entry is its last. *)
Theorem push_history_length (prev : list JSValue) (entry : JSValue) :
  length (push_history prev entry) = Nat.min 10 (S (length prev))
  /\ last (push_history prev entry) = Some entry.
Proof.
  split; [apply length_push_history |].
  unfold push_history, slice_last. rewrite length_app. cbn [length].
  rewrite drop_app. replace (length prev + 1 - 10 - length prev)%nat with 0%nat by lia.
  cbn [drop]. apply last_snoc.
Qed.

(** X16.  After any number of generations (one at least) the history is the
    last ten of the entries it had and of the new ones, in the order they
    were added: the oldest are dropped first. *)
Theorem push_history_many (prev entries : list JSValue) :
  entries <> [] ->
  fold_left push_history entries prev = slice_last 10 (prev ++ entries).
Proof.
  revert prev. induction entries as [| e entries IH]; intros prev Hne; [done |].
  cbn [fold_left]. destruct entries as [| e' entries].
  - reflexivity.
  - rewrite IH by discriminate. unfold push_history.
    rewrite slice_last_app. by rewrite <- app_assoc.
Qed.

Lemma push_history_many_witness :
  map More.entry (seq 8 3) <> []
  /\ fold_left push_history (map More.entry (seq 8 3)) (map More.entry (seq 0 8))
     = slice_last 10 (map More.entry (seq 0 8) ++ map More.entry (seq 8 3)).
Proof.
  split; [discriminate |].
  apply (push_history_many (map More.entry (seq 0 8)) (map More.entry (seq 8 3))). discriminate.
Defined.

(** ** The ingredients field *)

Lemma split_no_sep (sep : N) (s piece : jsstring) :
  In piece (split sep s) -> ~ In sep piece /\ forall c, In c piece -> In c s.
Proof.
  revert piece. induction s as [| c s IH]; intros piece; simpl.
  - intros [<- | []]. split; [intros [] | intros c []].
  - destruct (c =? sep)%N eqn:Hc.
    + intros [<- | Hin]; [split; [intros [] | intros d []] |].
      destruct (IH piece Hin) as [H1 H2]. split; [exact H1 | intros d Hd; right; by apply H2].
    + apply N.eqb_neq in Hc. destruct (split sep s) as [| p ps] eqn:E.
      * intros [<- | []]. split; [intros [-> | []]; by apply Hc | intros d [<- | []]; by left].
      * intros [<- | Hin].
        -- destruct (IH p (or_introl eq_refl)) as [H1 H2]. split.
           ++ intros [-> | Hp]; [by apply Hc | by apply H1].
           ++ intros d [<- | Hd]; [by left | right; by apply H2].
        -- destruct (IH piece (or_intror Hin)) as [H1 H2].
           split; [exact H1 | intros d Hd; right; by apply H2].
Qed.

Lemma trim_in (s : jsstring) (c : N) : In c (trim s) -> In c s.
Proof.
  destruct (trim_take_drop s) as (j & k & ->). intros H.
  apply list_elem_of_In, list_elem_of_lookup in H as [i H].
  apply lookup_take_Some in H as [H _]. rewrite lookup_drop in H.
  apply list_elem_of_In, list_elem_of_lookup. eauto.
Qed.

Lemma trim_blank (s : jsstring) : (forall c, In c s -> is_space c = true) -> trim s = [].
Proof.
  intros H. assert (trim_start s = []) as E.
  { induction s as [| c s IH]; [reflexivity |]. simpl.
    rewrite (H c (or_introl eq_refl)). apply IH. intros d Hd. apply H. by right. }
  unfold trim. rewrite E. reflexivity.
Qed.

(** X17.  Every ingredient the page sends is non-empty, contains no comma
    and neither begins nor ends with white space. *)
Theorem ingredientsArray_pieces (text : jsstring) (i : jsstring) :
  In i (ingredientsArray text) ->
  i <> [] /\ ~ In 44%N i
  /\ (forall c, head i = Some c -> is_space c = false)
  /\ (forall c, last i = Some c -> is_space c = false).
Proof.
  unfold ingredientsArray. intros H.
  apply list_elem_of_In, list_elem_of_filter in H as [Hne H].
  apply list_elem_of_In, in_map_iff in H as (piece & <- & Hp).
  apply split_no_sep in Hp as [Hsep _].
  repeat split.
  - exact Hne.
  - intros Hc. by apply Hsep, trim_in.
  - apply trim_head.
  - apply trim_last.
Qed.

Lemma ingredientsArray_pieces_witness :
  In (str "eggs") (ingredientsArray (str " eggs , , milk"))
  /\ str "eggs" <> [] /\ ~ In 44%N (str "eggs")
  /\ (forall c, head (str "eggs") = Some c -> is_space c = false)
  /\ (forall c, last (str "eggs") = Some c -> is_space c = false).
Proof.
  split; [left; reflexivity |].
  apply (ingredientsArray_pieces (str " eggs , , milk") (str "eggs")). left. reflexivity.
Defined.

(** X18.  An ingredients field made of white space and commas only (the
    empty field included) gives the empty list. *)
Theorem ingredientsArray_blank (text : jsstring) :
  (forall c, In c text -> is_space c = true \/ c = 44%N) ->
  ingredientsArray text = [].
Proof.
  intros H. unfold ingredientsArray.
  assert (forall pieces : list jsstring,
            (forall p, In p pieces -> trim p = []) ->
            filter (fun i : jsstring => i <> []) (map trim pieces) = []) as Hf.
  { induction pieces as [| p ps IH]; intros Hp; [reflexivity |].
    cbn [map]. rewrite filter_cons_False by (rewrite (Hp p (or_introl eq_refl)); by intros E).
    apply IH. intros q Hq. apply Hp. by right. }
  apply Hf. intros p Hp. apply trim_blank. intros c Hc.
  destruct (split_no_sep 44 _ p Hp) as [Hsep Hsub].
  destruct (H c (trim_in _ _ (Hsub c Hc))) as [Hs | ->]; [exact Hs | by destruct Hsep].
Qed.

Lemma ingredientsArray_blank_witness :
  (forall c, In c (str " , ,") -> is_space c = true \/ c = 44%N)
  /\ ingredientsArray (str " , ,") = [].
Proof.
  assert (forall c, In c (str " , ,") -> is_space c = true \/ c = 44%N) as H.
  { intros c Hc. vm_compute in Hc.
    destruct Hc as [<- | [<- | [<- | [<- | []]]]]; auto. }
  split; [exact H |]. exact (ingredientsArray_blank (str " , ,") H).
Defined.

(** ** What the page sends is what the server reads *)


Lemma escapes_read_back :
  forallb More.escape_reads_back
    (map N.of_nat (seq 0 32) ++ map (fun k => 55296 + N.of_nat k)%N (seq 0 2048)) = true.
Proof. vm_compute. reflexivity. Qed.

Lemma unicode_escape_read (c : N) (rest : jsstring) :
  (c < 32 \/ 55296 <= c <= 57343)%N ->
  forall t r, JSON.string_body rest = Some (t, r) ->
    JSON.string_body (unicode_escape c ++ rest) = Some (c :: t, r).
Proof.
  intros Hc t r Hrest.
  assert (More.escape_reads_back c = true) as H.
  { apply (proj1 (forallb_forall _ _) escapes_read_back).
    apply in_app_iff. destruct Hc as [Hc | Hc]; [left | right]; apply in_map_iff.
    - exists (N.to_nat c). split; [lia | apply in_seq; lia].
    - exists (N.to_nat (c - 55296)). split; [lia | apply in_seq; lia]. }
  unfold More.escape_reads_back in H. unfold unicode_escape in *.
  destruct (JSON.hex4 _ _ _ _) as [u |] eqn:E; [| discriminate].
  apply N.eqb_eq in H. subst u.
  change (JSON.string_body ([92; 117; hex_digit (c / 4096 mod 16); hex_digit (c / 256 mod 16);
                             hex_digit (c / 16 mod 16); hex_digit (c mod 16)]%N ++ rest))
    with (match JSON.hex4 (hex_digit (c / 4096 mod 16)) (hex_digit (c / 256 mod 16))
                  (hex_digit (c / 16 mod 16)) (hex_digit (c mod 16)),
                JSON.string_body rest with
          | Some u, Some (t, r) => Some (u :: t, r)
          | _, _ => None
          end).
  by rewrite E, Hrest.
Qed.

(** Reading the characters of a quoted string gives the string back. *)
Lemma quote_body_read (n : nat) :
  forall s r, (length s <= n)%nat ->
    JSON.string_body (quote_body s ++ 34%N :: r) = Some (s, r).
Proof.
  induction n as [| n IH]; intros s r Hn.
  { destruct s; [reflexivity | simpl in Hn; lia]. }
  destruct s as [| c s]; [reflexivity |]. simpl in Hn.
  assert (JSON.string_body (quote_body s ++ 34%N :: r) = Some (s, r)) as IHs
    by (apply IH; lia).
  cbn [quote_body].
  destruct (c =? 8)%N eqn:E8; [apply N.eqb_eq in E8 as ->; cbn; by rewrite IHs |].
  destruct (c =? 9)%N eqn:E9; [apply N.eqb_eq in E9 as ->; cbn; by rewrite IHs |].
  destruct (c =? 10)%N eqn:E10; [apply N.eqb_eq in E10 as ->; cbn; by rewrite IHs |].
  destruct (c =? 12)%N eqn:E12; [apply N.eqb_eq in E12 as ->; cbn; by rewrite IHs |].
  destruct (c =? 13)%N eqn:E13; [apply N.eqb_eq in E13 as ->; cbn; by rewrite IHs |].
  destruct (c =? 34)%N eqn:E34; [apply N.eqb_eq in E34 as ->; cbn; by rewrite IHs |].
  destruct (c =? 92)%N eqn:E92; [apply N.eqb_eq in E92 as ->; cbn; by rewrite IHs |].
  destruct (c <? 32)%N eqn:E32.
  { rewrite <- app_assoc. apply unicode_escape_read; [| exact IHs].
    left. by apply N.ltb_lt. }
  assert (forall x, JSON.string_body x = Some (s, r) ->
                    JSON.string_body (c :: x) = Some (c :: s, r)) as Hlit.
  { intros x Hx. cbn [JSON.string_body]. by rewrite E34, E32, E92, Hx. }
  assert (forall x, is_high_surrogate c = true \/ is_low_surrogate c = true ->
                    JSON.string_body x = Some (s, r) ->
                    JSON.string_body (unicode_escape c ++ x) = Some (c :: s, r)) as Hesc.
  { intros x Hc Hx. apply unicode_escape_read; [| exact Hx]. right.
    unfold is_high_surrogate, is_low_surrogate in Hc.
    destruct Hc as [Hc | Hc]; apply andb_true_iff in Hc as [H1 H2];
      apply N.leb_le in H1, H2; lia. }
  destruct (is_high_surrogate c) eqn:Eh.
  - destruct s as [| d s'].
    + rewrite <- (app_nil_r (unicode_escape c)), <- app_assoc. apply Hesc; [by left | exact IHs].
    + destruct (is_low_surrogate d) eqn:El.
      * cbn [app]. cbn [JSON.string_body]. rewrite E34, E32, E92.
        assert ((d =? 34) = false /\ (d <? 32) = false /\ (d =? 92) = false)%N as (D1 & D2 & D3).
        { unfold is_low_surrogate in El. apply andb_true_iff in El as [H1 H2].
          apply N.leb_le in H1, H2. repeat split;
            [apply N.eqb_neq | apply N.ltb_ge | apply N.eqb_neq]; lia. }
        rewrite D1, D2, D3. rewrite (IH s' r) by (simpl in Hn; lia). reflexivity.
      * rewrite <- app_assoc. apply Hesc; [by left | exact IHs].
  - destruct (is_low_surrogate c) eqn:El.
    + rewrite <- app_assoc. apply Hesc; [by right | exact IHs].
    + cbn [app]. by apply Hlit.
Qed.

Lemma quoted_value (fuel : nat) (s r : jsstring) :
  (1 <= fuel)%nat -> JSON.value fuel (quote s ++ r) = Some (JStr s, r).
Proof.
  intros Hf. destruct fuel as [| fuel]; [lia |].
  unfold quote. cbn [app JSON.value JSON.skip_ws].
  change (JSON.is_ws 34) with false. cbn iota.
  change (34 =? 123)%N with false. change (34 =? 91)%N with false.
  change (34 =? 34)%N with true. cbn iota.
  rewrite <- app_assoc. cbn [app]. by rewrite (quote_body_read _ s r (le_n _)).
Qed.

Lemma join_with_cons {A} (f : A -> jsstring) (sep : jsstring) (x y : A) (l : list A) :
  join_with f sep (x :: y :: l) = f x ++ sep ++ join_with f sep (y :: l).
Proof. reflexivity. Qed.

Lemma quoted_elements (l : list jsstring) :
  forall fuel acc r, l <> [] -> (length l + 1 <= fuel)%nat ->
    JSON.elements fuel (join_with quote (str ",") l ++ 93%N :: r) acc
    = Some (JArr (rev acc ++ map JStr l), r).
Proof.
  induction l as [| x l IH]; intros fuel acc r Hne Hf; [done |].
  destruct fuel as [| fuel]; [simpl in Hf; lia |]. cbn [length] in Hf.
  destruct l as [| y l].
  - cbn [JSON.elements join_with]. rewrite <- app_assoc.
    rewrite quoted_value by lia.
    cbn [app JSON.skip_ws]. change (JSON.is_ws 93) with false. cbn iota.
    change (93 =? 44)%N with false. change (93 =? 93)%N with true. cbn iota.
    reflexivity.
  - rewrite join_with_cons, <- !app_assoc. cbn [JSON.elements].
    rewrite quoted_value by lia. change (str ",") with [44%N]. cbn [app JSON.skip_ws].
    change (JSON.is_ws 44) with false. cbn iota.
    change (44 =? 44)%N with true. cbn iota.
    change [44%N] with (str ",").
    rewrite IH; [| discriminate | cbn [length] in *; lia].
    cbn [rev map]. by rewrite <- app_assoc.
Qed.

Lemma join_quoted_length (l : list jsstring) :
  (length l <= length (join_with quote (str ",") l))%nat.
Proof.
  induction l as [| x l IH]; [simpl; lia |].
  cbn [join_with]. rewrite length_app. unfold quote at 1. cbn [length app].
  destruct l; [simpl; lia |]. rewrite length_app. simpl in IH |- *. lia.
Qed.

Lemma stringified_value (l : list jsstring) (fuel : nat) :
  (length l + 2 <= fuel)%nat ->
  JSON.value fuel (stringify_strings l) = Some (JArr (map JStr l), []).
Proof.
  intros Hf. destruct fuel as [| fuel]; [lia |]. unfold stringify_strings.
  change (str "[") with [91%N]. change (str "]") with [93%N].
  cbn [JSON.value app JSON.skip_ws]. change (JSON.is_ws 91) with false. cbn iota.
  change (91 =? 123)%N with false. change (91 =? 91)%N with true. cbn iota.
  destruct l as [| x l]; [reflexivity |].
  assert (exists rest, join_with quote (str ",") (x :: l) ++ [93%N] = 34%N :: rest) as [rest E].
  { cbn [join_with]. unfold quote at 1. cbn [app]. eauto. }
  rewrite E. cbn [JSON.skip_ws]. change (JSON.is_ws 34) with false. cbn iota.
  change (34 =? 93)%N with false. cbn iota. rewrite <- E.
  rewrite quoted_elements; [reflexivity | discriminate | lia].
Qed.

(** JSON.parse reads back what JSON.stringify wrote. *)
Lemma parse_stringify_strings (l : list jsstring) :
  JSON.parse (stringify_strings l) = Some (JArr (map JStr l)).
Proof.
  unfold JSON.parse. rewrite stringified_value; [reflexivity |].
  unfold stringify_strings. rewrite !length_app.
  pose proof (join_quoted_length l). lia.
Qed.

(** ** getSpotifyPlaylistId *)

Lemma span_spec (p : N -> bool) (s a r : jsstring) :
  span p s = (a, r) -> s = a ++ r /\ forallb p a = true.
Proof.
  revert a r. induction s as [| c s IH]; intros a r H; simpl in H.
  - injection H as <- <-. split; reflexivity.
  - destruct (p c) eqn:Hc.
    + destruct (span p s) as [a' r'] eqn:E. injection H as <- <-.
      destruct (IH a' r' eq_refl) as [-> Ha]. split; [reflexivity |]. simpl. by rewrite Hc.
    + injection H as <- <-. split; reflexivity.
Qed.

Lemma span_run (p : N -> bool) (a r : jsstring) :
  forallb p a = true -> (forall c, head r = Some c -> p c = false) ->
  span p (a ++ r) = (a, r).
Proof.
  intros Ha Hr. induction a as [| c a IH]; simpl in *.
  - destruct r as [| d r]; [reflexivity |]. simpl. by rewrite (Hr d eq_refl).
  - apply andb_true_iff in Ha as [Hc Ha]. rewrite Hc, (IH Ha). reflexivity.
Qed.

Lemma is_prefix_spec (t s : jsstring) :
  is_prefix t s = true <-> exists r, s = t ++ r.
Proof.
  revert s. induction t as [| a t IH]; intros s; simpl.
  - split; [intros _; by exists s | reflexivity].
  - destruct s as [| b s]; [split; [discriminate | intros [r [=]]] |].
    rewrite andb_true_iff, N.eqb_eq, IH. split.
    + intros [-> [r ->]]. by exists r.
    + intros [r [= -> ->]]. eauto.
Qed.

(** What a match is: a non-empty run of letters and digits that follows the
    literal somewhere in the text. *)
Lemma match_after_sound (literal s id : jsstring) :
  match_after literal s = Some id ->
  id <> [] /\ forallb is_alnum id = true
  /\ exists before after, s = before ++ literal ++ id ++ after.
Proof.
  induction s as [| c s IH]; cbn [match_after].
  - destruct (is_prefix literal []) eqn:Hp; [| discriminate].
    apply is_prefix_spec in Hp as [r Hr].
    destruct literal; [| discriminate]. destruct r; [| discriminate]. discriminate.
  - destruct (is_prefix literal (c :: s)) eqn:Hp.
    + apply is_prefix_spec in Hp as [r Hr].
      destruct (span is_alnum (drop (length literal) (c :: s))) as [a rest] eqn:E.
      cbn [fst]. destruct a as [| d a].
      * intros H. destruct (IH H) as (H1 & H2 & before & after & ->).
        repeat split; try assumption. by exists (c :: before), after.
      * intros [= <-]. rewrite Hr, drop_app_length in E.
        apply span_spec in E as [-> Ha].
        repeat split; [discriminate | exact Ha |]. exists [], rest. by rewrite Hr.
    + intros H. destruct (IH H) as (H1 & H2 & before & after & ->).
      repeat split; try assumption. by exists (c :: before), after.
Qed.

(** Wherever the literal is followed by a letter or a digit, there is a
    match. *)
Lemma match_after_complete (literal before rest : jsstring) (c : N) :
  is_alnum c = true ->
  match_after literal (before ++ literal ++ c :: rest) <> None.
Proof.
  intros Hc. induction before as [| b before IH].
  - cbn [app]. destruct (literal ++ c :: rest) as [| x s] eqn:E;
      [by destruct literal |].
    cbn [match_after]. rewrite <- E.
    rewrite (proj2 (is_prefix_spec literal _)) by eauto.
    rewrite drop_app_length. simpl. rewrite Hc.
    destruct (span is_alnum rest). discriminate.
  - cbn [app match_after].
    destruct (if is_prefix literal _ then _ else _); [exact IH | discriminate].
Qed.

(** X19.  An id that getSpotifyPlaylistId returns is a non-empty run of
    letters and digits, and the url is a string in which it follows
    "playlist/". *)
Theorem getSpotifyPlaylistId_sound (url : JSValue) (id : jsstring) :
  getSpotifyPlaylistId url = Some id ->
  id <> [] /\ forallb is_alnum id = true
  /\ exists before after, url = JStr (before ++ str "playlist/" ++ id ++ after).
Proof.
  unfold getSpotifyPlaylistId. destruct (negb (truthy url)); [discriminate |].
  destruct url; try discriminate.
  destruct (match_after (str "playlist/") s) as [i |] eqn:E1.
  - intros [= ->]. apply match_after_sound in E1 as (H1 & H2 & before & after & ->). eauto 6.
  - destruct (match_after (str "embed/playlist/") s) as [i |] eqn:E2; [| discriminate].
    intros [= ->]. apply match_after_sound in E2 as (H1 & H2 & before & after & ->).
    repeat split; try assumption. exists (before ++ str "embed/"), after.
    by rewrite <- !app_assoc.
Qed.

Lemma getSpotifyPlaylistId_sound_witness :
  getSpotifyPlaylistId (JStr (str "https://open.spotify.com/playlist/37i9?si=1")) = Some (str "37i9")
  /\ str "37i9" <> [] /\ forallb is_alnum (str "37i9") = true
  /\ exists before after,
       JStr (str "https://open.spotify.com/playlist/37i9?si=1")
       = JStr (before ++ str "playlist/" ++ str "37i9" ++ after).
Proof.
  split; [reflexivity |].
  apply (getSpotifyPlaylistId_sound (JStr (str "https://open.spotify.com/playlist/37i9?si=1"))).
  reflexivity.
Defined.

(** X20.  getSpotifyPlaylistId returns the capture of the first pattern, or
    null: the lookup of "embed/playlist/" never finds an id the lookup of
    "playlist/" has not found, and a url that is empty or not a string gives
    null. *)
Theorem getSpotifyPlaylistId_first_pattern (url : JSValue) :
  getSpotifyPlaylistId url =
    match url with
    | JStr s => match_after (str "playlist/") s
    | _ => None
    end.
Proof.
  unfold getSpotifyPlaylistId. destruct url; try (by destruct (negb _)).
  cbn [truthy]. case_bool_decide as Hs; cbn [negb].
  - subst s. reflexivity.
  - destruct (match_after (str "playlist/") s) eqn:E1; [reflexivity |].
    destruct (match_after (str "embed/playlist/") s) as [id |] eqn:E2; [| reflexivity].
    exfalso. apply match_after_sound in E2 as (Hne & Hal & before & after & ->).
    destruct id as [| c id]; [done |].
    cbn [forallb] in Hal. apply andb_true_iff in Hal as [Hc _].
    revert E1. change (str "embed/playlist/") with (str "embed/" ++ str "playlist/").
    rewrite <- !app_assoc, (app_assoc before).
    apply (match_after_complete (str "playlist/") (before ++ str "embed/") (id ++ after) c Hc).
Qed.

Lemma first_pattern_hit (s id : jsstring) :
  match_after (str "playlist/") s = Some id -> getSpotifyPlaylistId (JStr s) = Some id.
Proof.
  intros H. unfold getSpotifyPlaylistId. cbn [truthy].
  case_bool_decide as Hs; [subst s; discriminate |]. cbn [negb]. by rewrite H.
Qed.

Lemma embed_src_id (id : jsstring) :
  id <> [] -> forallb is_alnum id = true ->
  getSpotifyPlaylistId (JStr (embed_src id)) = Some id.
Proof.
  intros Hne Hal. apply first_pattern_hit. unfold embed_src.
  change (str "https://open.spotify.com/embed/playlist/")
    with (str "https://open.spotify.com/embed/" ++ str "playlist/").
  rewrite <- app_assoc.
  assert (match_after (str "playlist/") (str "playlist/" ++ id ++ str "?utm_source=generator")
          = Some id) as Hm.
  { destruct (str "playlist/" ++ id ++ str "?utm_source=generator") as [| x s] eqn:E;
      [discriminate |].
    cbn [match_after]. rewrite <- E.
    rewrite (proj2 (is_prefix_spec (str "playlist/") _)) by eauto.
    rewrite drop_app_length, (span_run is_alnum id) by (try done; by intros c [= <-]).
    cbn [fst]. destruct id; done. }
  revert Hm. generalize (str "playlist/" ++ id ++ str "?utm_source=generator"). intros t Ht.
  destruct t as [| x t]; [discriminate |].
  cbn. exact Ht.
Qed.

(** X21.  The address of the embedded player that the page builds from an
    extracted id gives that same id back. *)
Theorem embed_round_trip (url : JSValue) (id : jsstring) :
  getSpotifyPlaylistId url = Some id ->
  getSpotifyPlaylistId (JStr (embed_src id)) = Some id.
Proof.
  unfold getSpotifyPlaylistId at 1. destruct (negb (truthy url)); [discriminate |].
  destruct url; try discriminate.
  destruct (match_after (str "playlist/") s) as [i |] eqn:E1.
  - intros [= ->]. apply match_after_sound in E1 as (H1 & H2 & _). by apply embed_src_id.
  - destruct (match_after (str "embed/playlist/") s) as [i |] eqn:E2; [| discriminate].
    intros [= ->]. apply match_after_sound in E2 as (H1 & H2 & _). by apply embed_src_id.
Qed.

Lemma embed_round_trip_witness :
  getSpotifyPlaylistId (JStr (str "https://open.spotify.com/playlist/37i9?si=1")) = Some (str "37i9")
  /\ getSpotifyPlaylistId (JStr (embed_src (str "37i9"))) = Some (str "37i9").
Proof.
  split; [reflexivity |].
  apply (embed_round_trip (JStr (str "https://open.spotify.com/playlist/37i9?si=1"))).
  reflexivity.
Defined.

(** ** handleSubmit *)

(** Strings can always be joined. *)
Lemma join_strings (l : list jsstring) (sep : jsstring) :
  join (map JStr l) sep = Some (join_with id sep l).
Proof.
  unfold join. induction l as [| x l IH]; [reflexivity |].
  cbn [map try_join_with join_with is_nullish ToString] in *. rewrite IH.
  destruct l; reflexivity.
Qed.

(** X22.  With a mood of white space only, handleSubmit sets the error text
    and does nothing else: no request is made.  Otherwise it makes one
    request, with the mood as typed (not trimmed); when that request arrives
    as sent, the server finds the mood valid, reads from the ingredients
    parameter exactly the list the page built, takes the mode of the page,
    and so never answers 400; it goes on to the completion call. *)
Theorem handleSubmit_request (st : State) (net : Params -> Reply) (now : Number)
    (timestamp : jsstring) :
  (trim (mood st) = [] ->
   handleSubmit st net now timestamp = (set_error st (JStr ERROR_MESSAGES.INVALID_MOOD), []))
  /\ (trim (mood st) <> [] ->
      exists p,
        snd (handleSubmit st net now timestamp) = [p]
        /\ params_mood p = mood st
        /\ valid_mood (Wire.received p) = true
        /\ ingredients_of (Wire.received p)
           = Some (map JStr (ingredientsArray (ingredients st)))
        /\ longMode_of (Wire.received p) = longMode st
        /\ (forall cfg w, status (fst (Server.experience cfg w (Wire.received p))) <> 400)
        /\ (forall cfg w, exists r rest,
               snd (Server.experience cfg w (Wire.received p)) = PostChat r :: rest)).
Proof.
  unfold handleSubmit. split; intros Hm.
  - by rewrite bool_decide_eq_true_2.
  - rewrite bool_decide_eq_false_2 by exact Hm.
    set (p := {| params_mood := mood st;
                 params_ingredients := stringify_strings (ingredientsArray (ingredients st));
                 params_longMode := longMode st |}).
    assert (valid_mood (Wire.received p) = true) as Hv.
    { unfold valid_mood. change (param (Wire.received p) "mood") with (JStr (mood st)).
      cbn [truthy is_string]. rewrite bool_decide_eq_false_2; [reflexivity |].
      intros E. apply Hm. by rewrite E. }
    assert (ingredients_of (Wire.received p)
            = Some (map JStr (ingredientsArray (ingredients st)))) as Hi.
    { unfold ingredients_of, parse_value.
      change (param (Wire.received p) "ingredients")
        with (JStr (stringify_strings (ingredientsArray (ingredients st)))).
      cbn [truthy ToString]. rewrite bool_decide_eq_false_2 by discriminate. cbn [negb].
      by rewrite parse_stringify_strings. }
    assert (forall cfg w, exists r rest,
              snd (Server.experience cfg w (Wire.received p)) = PostChat r :: rest) as Hcall.
    { intros cfg w.
      destruct (chat_request_built cfg (Wire.received p)
                  (map JStr (ingredientsArray (ingredients st))) _
                  (longMode_of (Wire.received p)) Hv (join_strings _ _))
        as (r & s & Hr & _).
      destruct (experience_first_call cfg w (Wire.received p) _ (PostChat r) Hv Hi)
        as [rest Hrest]; [unfold chat_call; by rewrite Hr | eauto]. }
    exists p. destruct (net p) as [data | code data |];
      repeat (match goal with |- context [if ?b then _ else _] => destruct b end);
      (repeat split; [exact Hv | exact Hi | by destruct st as [? ? []] | | exact Hcall]);
      intros cfg w H; apply experience_status_400 in H as [H | H]; congruence.
Qed.

Lemma handleSubmit_request_witness :
  trim (mood More.page) <> []
  /\ exists p,
       snd (handleSubmit More.page (fun _ => Unanswered) (of_nat 0) (str "now")) = [p]
       /\ params_mood p = mood More.page
       /\ valid_mood (Wire.received p) = true
       /\ ingredients_of (Wire.received p)
          = Some (map JStr (ingredientsArray (ingredients More.page)))
       /\ longMode_of (Wire.received p) = longMode More.page
       /\ (forall cfg w, status (fst (Server.experience cfg w (Wire.received p))) <> 400)
       /\ (forall cfg w, exists r rest,
              snd (Server.experience cfg w (Wire.received p)) = PostChat r :: rest).
Proof.
  assert (trim (mood More.page) <> []) as H by (intros E; vm_compute in E; discriminate E).
  split; [exact H |].
  exact (proj2 (handleSubmit_request More.page (fun _ => Unanswered) (of_nat 0) (str "now")) H).
Defined.

(** X23.  handleSubmit never leaves more than ten entries in a history that
    had ten at most, and it changes the history only when the request was
    fulfilled with an object: then the object is the experience shown, the
    error text is empty and the one new entry holds the mood and that
    object. *)
Theorem handleSubmit_history (st : State) (net : Params -> Reply) (now : Number)
    (timestamp : jsstring) :
  (length (history (fst (handleSubmit st net now timestamp)))
   <= Nat.max 10 (length (history st)))%nat
  /\ (history (fst (handleSubmit st net now timestamp)) = history st
      \/ exists p data,
           snd (handleSubmit st net now timestamp) = [p]
           /\ net p = Fulfilled data /\ truthy data = true /\ is_object data = true
           /\ experience (fst (handleSubmit st net now timestamp)) = data
           /\ error (fst (handleSubmit st net now timestamp)) = JStr []
           /\ history (fst (handleSubmit st net now timestamp))
              = push_history (history st) (history_entry now (mood st) data timestamp)).
Proof.
  unfold handleSubmit.
  assert (forall x : State * list Params,
            history (fst x) = history st ->
            (length (history (fst x)) <= Nat.max 10 (length (history st)))%nat
            /\ (history (fst x) = history st
                \/ exists p data,
                     snd x = [p] /\ net p = Fulfilled data /\ truthy data = true
                     /\ is_object data = true /\ experience (fst x) = data
                     /\ error (fst x) = JStr []
                     /\ history (fst x)
                        = push_history (history st)
                            (history_entry now (mood st) data timestamp))) as Hsame.
  { intros x Hx. rewrite Hx. split; [lia | by left]. }
  case_bool_decide; [by apply Hsame |].
  set (p := {| params_mood := mood st;
               params_ingredients := stringify_strings (ingredientsArray (ingredients st));
               params_longMode := longMode st |}).
  destruct (net p) as [data | code data |] eqn:Hnet.
  - destruct (truthy data) eqn:Ht; [| by apply Hsame].
    destruct (is_object data) eqn:Ho; [| by apply Hsame].
    cbn [negb orb fst snd history experience error]. split.
    + rewrite length_push_history. lia.
    + right. exists p, data. repeat split; assumption.
  - destruct (code =? 429); [by apply Hsame |].
    destruct (code =? 401); [by apply Hsame |].
    destruct (is_nullish data); by apply Hsame.
  - by apply Hsame.
Qed.

(** X24.  When /api/experience has answered with a status other than 200,
    the page shows its rate-limit text for 429, its authentication text for
    401 and otherwise the error text of the server (never the details, never
    its own generic text); no experience is shown and the history is left
    alone. *)
Theorem server_error_display (cfg : Config) (w : World) (req : Request) (st : State)
    (now : Number) (timestamp : jsstring) :
  trim (mood st) <> [] ->
  status (fst (Server.experience cfg w req)) <> 200 ->
  error (fst (handleSubmit st (fun _ => Wire.refusal (fst (Server.experience cfg w req)))
                now timestamp))
  = (if status (fst (Server.experience cfg w req)) =? 429
     then JStr ERROR_MESSAGES.RATE_LIMIT
     else if status (fst (Server.experience cfg w req)) =? 401
          then JStr ERROR_MESSAGES.UNAUTHORIZED
          else get (body (fst (Server.experience cfg w req))) (str "error"))
  /\ experience (fst (handleSubmit st (fun _ => Wire.refusal (fst (Server.experience cfg w req)))
                        now timestamp)) = JNull
  /\ history (fst (handleSubmit st (fun _ => Wire.refusal (fst (Server.experience cfg w req)))
                     now timestamp)) = history st.
Proof.
  intros Hm Hs. destruct (refusal_error_text cfg w req Hs) as (s & He & Hne).
  unfold handleSubmit, Wire.refusal. rewrite bool_decide_eq_false_2 by exact Hm.
  destruct (_ =? 429); [repeat split |]. destruct (_ =? 401); [repeat split |].
  assert (is_nullish (body (fst (Server.experience cfg w req))) = false) as ->.
  { destruct (body _); try reflexivity; discriminate. }
  cbn [fst error experience history]. repeat split.
  unfold or_else at 1. rewrite He. cbn [truthy]. by rewrite bool_decide_eq_false_2.
Qed.

Lemma server_error_display_witness :
  status (fst (Server.experience Sample.cfg (Sample.completion_rejects 503) Sample.rainy)) = 500
  /\ error (fst (handleSubmit More.page
                   (fun _ => Wire.refusal
                               (fst (Server.experience Sample.cfg (Sample.completion_rejects 503)
                                       Sample.rainy)))
                   (of_nat 0) (str "now")))
     = JStr (str "Failed to fetch experience. Please try again later.").
Proof.
  split; [vm_compute; reflexivity |].
  assert (trim (mood More.page) <> []) as H by (intros E; vm_compute in E; discriminate E).
  assert (status (fst (Server.experience Sample.cfg (Sample.completion_rejects 503) Sample.rainy))
          <> 200) as H' by (intros E; vm_compute in E; discriminate E).
  exact (proj1 (server_error_display Sample.cfg (Sample.completion_rejects 503) Sample.rainy
                  More.page (of_nat 0) (str "now") H H')).
Defined.

End App_facts.
